(** * Streaming-response merge engine of langchainjs: model and properties

    The development follows two source units:
    - [src/langchain-core/src/runnables/iter.ts]: the context-propagating
      generators [consumeIteratorInContext] / [consumeAsyncIterableInContext],
      the tool message chunk with its [concat], and [defaultToolCallParser];
    - [src/libs/langchain-openai/src/chat_models.ts]: [_convertDeltaToMessageChunk],
      [ChatOpenAI._streamResponseChunks] and the two branches of
      [ChatOpenAI._generate], with [messageToOpenAIRole],
      [openAIResponseToChatMessage], [convertMessagesToOpenAIParams],
      [_combineLLMOutput], the constructor and the [stream_options] of
      [invocationParams].

    Part I holds the model (definitions only), Part II the lemmas. *)

From stdpp Require Import gmap strings list fin_maps sorting.
From Stdlib Require Import ZArith.

#[local] Set Warnings "-register-all".
#[local] Open Scope Z_scope.

(* ===================================================================== *)
(** * Part I: the model                                                   *)
(* ===================================================================== *)

(** ** Free-form values

    Values of TypeScript type [any] / [Record<string, any>]: the tagged
    variant of spec section 9 (string / number / bool / map / sequence) with
    JSON's [null].  Numbers are integers here; a JavaScript object used as a
    dictionary is a [gmap string Value], an absent key is [undefined]. *)

Inductive Value :=
  | VNull
  | VBool (b : bool)
  | VNum (n : Z)
  | VStr (s : string)
  | VSeq (l : list Value)
  | VMap (m : gmap string Value).

(** JavaScript truthiness of a value, as [x || y] and [if (x)] read it. *)
Definition truthy (v : Value) : bool :=
  match v with
  | VNull => false
  | VBool b => b
  | VNum n => negb (n =? 0)
  | VStr s => negb (String.eqb s "")
  | VSeq _ | VMap _ => true
  end.

(** Nesting depth of maps, the measure for induction over nested maps. *)
Fixpoint vsize (v : Value) : nat :=
  match v with
  | VMap m => S (map_fold (λ _ x acc, (vsize x + acc)%nat) 0%nat m)
  | _ => 0%nat
  end.

(** ** The merge helpers of [./base.js]

    [ToolMessageChunk.concat] imports [mergeContent], [_mergeDicts],
    [_mergeObj] and [_mergeStatus] from [./base.js], which is not among the
    sources.  The chunk merge takes them as an interface; below it the
    helpers the spec describes are written out from its words. *)

(** One typed content part, [{ type, text }]. *)
Record MessageContentComplex := {
  part_type : string;
  part_text : string;
}.

(** [MessageContent = string | MessageContentComplex[]]. *)
Inductive MessageContent :=
  | ContentText (s : string)
  | ContentParts (l : list MessageContentComplex).

(** [status?: "success" | "error"]. *)
Inductive Status := success | error.

(** The four imported functions; an absent argument is [None]. *)
Record BaseHelpers := {
  mergeContent :
    option MessageContent → option MessageContent → option MessageContent;
  _mergeDicts : gmap string Value → gmap string Value → gmap string Value;
  _mergeObj : option Value → option Value → option Value;
  _mergeStatus : option Status → option Status → option Status;
}.

(** Modelled from the spec: the value-level step of [_mergeDicts]
    ([./base.js] is not among the sources).  Spec section 4.2, metadata
    maps: "key-wise union with later values overriding on key collision;
    nested maps merge recursively; nested sequences concatenate". *)
Fixpoint mergeValue (earlier later : Value) : Value :=
  match earlier, later with
  | VMap m1, VMap m2 => VMap (union_with (λ x y, Some (mergeValue x y)) m1 m2)
  | VSeq l1, VSeq l2 => VSeq (l1 ++ l2)
  | _, _ => later
  end.

(** Modelled from the spec: [_mergeDicts] of [./base.js], the key-wise union
    of two metadata maps with [mergeValue] on colliding keys. *)
Definition spec_mergeDicts (left right : gmap string Value) : gmap string Value :=
  union_with (λ x y, Some (mergeValue x y)) left right.

Definition content_is_empty (c : MessageContent) : bool :=
  match c with
  | ContentText s => String.eqb s ""
  | ContentParts l => match l with [] => true | _ => false end
  end.

(** A plain text read as a single-part list. *)
Definition as_parts (c : MessageContent) : list MessageContentComplex :=
  match c with
  | ContentText s => [ {| part_type := "text"; part_text := s |} ]
  | ContentParts l => l
  end.

(** Modelled from the spec: [mergeContent] of [./base.js].  Spec section
    4.2, content: "if both are text, concatenate as a.content + b.content;
    if either is an ordered list of parts, the result is the list
    concatenation, treating a plain text field as a single-part list for
    this purpose; if one side is absent/empty, return the other unchanged".
    [None] is an absent content. *)
Definition spec_mergeContent (a b : option MessageContent) : option MessageContent :=
  match a, b with
  | None, _ => b
  | _, None => a
  | Some x, Some y =>
      Some (if content_is_empty x then y
            else if content_is_empty y then x
            else match x, y with
                 | ContentText s, ContentText t => ContentText (s +:+ t)
                 | _, _ => ContentParts (as_parts x ++ as_parts y)
                 end)
  end.

(** Modelled from the spec: [_mergeStatus] of [./base.js].  Spec section
    4.2, status: "later-defined value wins; if the later fragment leaves it
    undefined, the earlier value survives". *)
Definition spec_mergeStatus (left right : option Status) : option Status :=
  match right with
  | Some s => Some s
  | None => left
  end.

(** The helpers as the spec describes them.  The spec has no rule for the
    artifact, so [_mergeObj] stays a parameter. *)
Definition spec_helpers (mergeObj : option Value → option Value → option Value) :
    BaseHelpers :=
  {| mergeContent := spec_mergeContent;
     _mergeDicts := spec_mergeDicts;
     _mergeObj := mergeObj;
     _mergeStatus := spec_mergeStatus |}.

(** The free-form value rule lifted to optional values: one candidate for
    the artifact merge, used in the sample computations. *)
Definition mergeObjValue (left right : option Value) : option Value :=
  union_with (λ x y, Some (mergeValue x y)) left right.

(** The helpers of the sample computations. *)
Definition sample_helpers : BaseHelpers := spec_helpers mergeObjValue.

(** ** Tool message chunks ([ToolMessageChunk], iter.ts lines 174-233) *)

Module Tool.

(** The fields of a chunk: those of [BaseMessageFields] ([content], [name],
    [additional_kwargs], [response_metadata], [id]) and the three the class
    adds.  [content], [tool_call_id] are declared non-optional in
    TypeScript; they are optional here because the chunk is built from wire
    deltas ([tool_call_id: delta.tool_call_id]) and the spec speaks of
    fragments with every field absent. *)
Record ToolMessageChunk := {
  content : option MessageContent;
  name : option string;
  additional_kwargs : gmap string Value;
  response_metadata : gmap string Value;
  artifact : option Value;
  tool_call_id : option string;
  id : option string;
  status : option Status;
}.

Section Concat.

(** The functions imported from [./base.js]. *)
Variable base : BaseHelpers.

(** [ToolMessageChunk.concat], iter.ts lines 208-224; [this.id ?? chunk.id]
    is the left-biased choice on options.  The object passed to the
    constructor has no [name], so the new chunk has none. *)
Definition concat (this chunk : ToolMessageChunk) : ToolMessageChunk :=
  {| content := mergeContent base (content this) (content chunk);
     name := None;
     additional_kwargs :=
       _mergeDicts base (additional_kwargs this) (additional_kwargs chunk);
     response_metadata :=
       _mergeDicts base (response_metadata this) (response_metadata chunk);
     artifact := _mergeObj base (artifact this) (artifact chunk);
     tool_call_id := tool_call_id this;
     id := match id this with Some i => Some i | None => id chunk end;
     status := _mergeStatus base (status this) (status chunk) |}.

(** The helpers return a field of [a] unchanged beside an absent one. *)
Definition neutral_on (a : ToolMessageChunk) : Prop :=
  (mergeContent base (content a) None = content a ∧
   mergeContent base None (content a) = content a) ∧
  (_mergeDicts base (additional_kwargs a) ∅ = additional_kwargs a ∧
   _mergeDicts base ∅ (additional_kwargs a) = additional_kwargs a) ∧
  (_mergeDicts base (response_metadata a) ∅ = response_metadata a ∧
   _mergeDicts base ∅ (response_metadata a) = response_metadata a) ∧
  (_mergeObj base (artifact a) None = artifact a ∧
   _mergeObj base None (artifact a) = artifact a) ∧
  (_mergeStatus base (status a) None = status a ∧
   _mergeStatus base None (status a) = status a).

End Concat.

(** The fragment with every field absent. *)
Definition empty : ToolMessageChunk :=
  {| content := None;
     name := None;
     additional_kwargs := ∅;
     response_metadata := ∅;
     artifact := None;
     tool_call_id := None;
     id := None;
     status := None |}.

End Tool.

(** ** Where the merge is order-sensitive

    Two shapes decide whether regrouping three merges changes the result. *)

(** A non-empty text. *)
Definition is_text (c : option MessageContent) : bool :=
  match c with
  | Some (ContentText s) => negb (String.eqb s "")
  | _ => false
  end.

(** A non-empty list of parts. *)
Definition is_parts (c : option MessageContent) : bool :=
  match c with
  | Some (ContentParts (_ :: _)) => true
  | _ => false
  end.

(** Two neighbouring non-empty texts beside a non-empty part list: merged
    first, the texts become one part; merged last, they stay two. *)
Definition content_clash (a b c : option MessageContent) : bool :=
  (is_text a && is_text b && is_parts c) || (is_parts a && is_text b && is_text c).

(** Somewhere under one key path the first and third value are both maps
    (or both sequences) while the second is of another kind. *)
Fixpoint sandwiched (a b c : Value) : bool :=
  match a, b, c with
  | VMap ma, VMap mb, VMap mc =>
      map_fold (λ k va acc,
        acc || match mb !! k, mc !! k with
               | Some vb, Some vc => sandwiched va vb vc
               | _, _ => false
               end) false ma
  | VMap _, _, VMap _ => true
  | VSeq _, VSeq _, VSeq _ => false
  | VSeq _, _, VSeq _ => true
  | _, _, _ => false
  end.

Definition dict_sandwiched (a b c : gmap string Value) : bool :=
  sandwiched (VMap a) (VMap b) (VMap c).

(** [a] with its [tool_call_id] replaced. *)
Definition with_tool_call_id (t : option string) (a : Tool.ToolMessageChunk) :
    Tool.ToolMessageChunk :=
  {| Tool.content := Tool.content a;
     Tool.name := Tool.name a;
     Tool.additional_kwargs := Tool.additional_kwargs a;
     Tool.response_metadata := Tool.response_metadata a;
     Tool.artifact := Tool.artifact a;
     Tool.tool_call_id := t;
     Tool.id := Tool.id a;
     Tool.status := Tool.status a |}.

(** [a] with its [name] replaced. *)
Definition with_name (n : option string) (a : Tool.ToolMessageChunk) :
    Tool.ToolMessageChunk :=
  {| Tool.content := Tool.content a;
     Tool.name := n;
     Tool.additional_kwargs := Tool.additional_kwargs a;
     Tool.response_metadata := Tool.response_metadata a;
     Tool.artifact := Tool.artifact a;
     Tool.tool_call_id := Tool.tool_call_id a;
     Tool.id := Tool.id a;
     Tool.status := Tool.status a |}.

(** *** Sample chunks *)

Definition text_part (s : string) : MessageContentComplex :=
  {| part_type := "text"; part_text := s |}.

Definition image_part : MessageContentComplex :=
  {| part_type := "image_url"; part_text := "https://example.test/a.png" |}.

Definition chunk_of (c : option MessageContent) (kw : gmap string Value)
    (tid mid : option string) (st : option Status) : Tool.ToolMessageChunk :=
  {| Tool.content := c;
     Tool.name := None;
     Tool.additional_kwargs := kw;
     Tool.response_metadata := ∅;
     Tool.artifact := None;
     Tool.tool_call_id := tid;
     Tool.id := mid;
     Tool.status := st |}.

(** Two texts followed by a part list. *)
Definition frag_J : Tool.ToolMessageChunk :=
  chunk_of (Some (ContentText "J")) ∅ (Some "call_1") None None.
Definition frag_adore : Tool.ToolMessageChunk :=
  chunk_of (Some (ContentText "adore")) ∅ (Some "call_1") (Some "msg_7") (Some success).
Definition frag_image : Tool.ToolMessageChunk :=
  chunk_of (Some (ContentParts [image_part])) ∅ (Some "call_1") (Some "msg_9") None.
Definition frag_la : Tool.ToolMessageChunk :=
  chunk_of (Some (ContentText " la")) ∅ (Some "call_1") None (Some error).

(** A chunk that carries a [name], as [new ToolMessageChunk({ ..., name })]
    builds it. *)
Definition frag_named : Tool.ToolMessageChunk :=
  with_name (Some "lookup") frag_adore.

(** A map, a string and a map under the key [usage]. *)
Definition frag_kw_in : Tool.ToolMessageChunk :=
  chunk_of None {[ "usage" := VMap {[ "in" := VNum 3 ]} ]} None None None.
Definition frag_kw_str : Tool.ToolMessageChunk :=
  chunk_of None {[ "usage" := VStr "n/a" ]} None None None.
Definition frag_kw_out : Tool.ToolMessageChunk :=
  chunk_of None {[ "usage" := VMap {[ "out" := VNum 5 ]} ]} None None None.

(** ** The ambient execution context

    The ambient context is the store of the process-wide
    [AsyncLocalStorage]; [installs] counts how often a context was installed
    (a ghost counter for stating that nothing is installed any more). *)

Section Ambient.

(** [Partial<RunnableConfig>], opaque to the wrappers. *)
Context {Ctx : Type}.

Record World := {
  ambient : option Ctx;
  installs : nat;
}.

(** Code that runs against the ambient store. *)
Definition Comp (A : Type) : Type := World → A * World.

Definition ret {A} (a : A) : Comp A := λ w, (a, w).

Definition bind {A B} (c : Comp A) (k : A → Comp B) : Comp B :=
  λ w, let '(a, w') := c w in k a w'.

Definition getStore : Comp (option Ctx) := λ w, (ambient w, w).

Definition install (c : Ctx) : Comp unit :=
  λ w, (tt, {| ambient := Some c; installs := S (installs w) |}).

Definition restore (saved : option Ctx) : Comp unit :=
  λ w, (tt, {| ambient := saved; installs := installs w |}).

(** Modelled from the spec: [AsyncLocalStorageProviderSingleton.runWithConfig]
    of [../singletons/index.js], which is not among the sources.  Spec
    section 4.1: each pull "(1) installs the context, (2) invokes the
    underlying sequence's next-step, (3) uninstalls the context before
    returning control to the caller", "then restores whatever context was
    ambient before the pull began"; no context means "leave ambient context
    unchanged"; the context is "correctly uninstalled even if the step raises
    a failure" (a failure is a result of the callback here). *)
Definition runWithConfig {A} (context : option Ctx) (callback : Comp A) : Comp A :=
  bind getStore (λ saved,
  bind (match context with Some c => install c | None => ret tt end) (λ _,
  bind callback (λ r,
  bind (restore saved) (λ _,
  ret r)))).

End Ambient.

Arguments World : clear implicits.
Arguments Comp : clear implicits.

(** ** The context-propagating generators (iter.ts lines 33-69) *)

(** What one call of [next()] gives: [{ value, done: false }],
    [{ done: true }], or a thrown failure. *)
Inductive IteratorResult (T : Type) :=
  | Yield (value : T)
  | Done
  | Thrown (failure : string).

Arguments Yield {T} value.
Arguments Done {T}.
Arguments Thrown {T} failure.

(** What [iter[Symbol.asyncIterator]()] returns: the iterable itself (as a
    generator object does) or another object with fields of its own. *)
Inductive IteratorRef (O : Type) :=
  | ItSelf
  | ItFresh (fields : O).

Arguments ItSelf {O}.
Arguments ItFresh {O} fields.

(** A generator object is suspended (before its first pull or at a [yield])
    or completed (after [break], or after a failure left its body). *)
Inductive GenState := Suspended | Completed.

Section Wrappers.

Context {Ctx T O : Type}.

(** The body of the iterator's [next] method as a function of the object
    it is invoked on ([this], with fields of type [O]): it answers and
    leaves the object in a new state, and may read or change the ambient
    store while it runs. *)
Variable next : O → Comp Ctx (IteratorResult T * O).

(** The iterable's [Symbol.asyncIterator] method. *)
Variable asyncIterator : O → IteratorRef O.

(** The generator object [consumeIteratorInContext(context, iter)]. *)
Record SyncGen := {
  sg_state : GenState;
  sg_iter : O;
}.

Definition consumeIteratorInContext (iter : O) : SyncGen :=
  {| sg_state := Suspended; sg_iter := iter |}.

(** One pull of the synchronous wrapper: one turn of [while (true)].
    [iter.next.bind(iter)] is [next] invoked on [iter]. *)
Definition sync_pull (context : option Ctx) (g : SyncGen) :
    Comp Ctx (IteratorResult T * SyncGen) :=
  match sg_state g with
  | Completed => ret (Done, g)
  | Suspended =>
      bind (runWithConfig context (next (sg_iter g))) (λ '(r, iter'),
        match r with
        | Yield value =>
            ret (Yield value, {| sg_state := Suspended; sg_iter := iter' |})
        | Done =>
            ret (Done, {| sg_state := Completed; sg_iter := iter' |})
        | Thrown e =>
            ret (Thrown e, {| sg_state := Completed; sg_iter := iter' |})
        end)
  end.

(** The generator object [consumeAsyncIterableInContext(context, iter)];
    [ag_iterator] is [const iterator], set when the body starts. *)
Record AsyncGen := {
  ag_state : GenState;
  ag_iter : O;
  ag_iterator : option (IteratorRef O);
}.

Definition consumeAsyncIterableInContext (iter : O) : AsyncGen :=
  {| ag_state := Suspended; ag_iter := iter; ag_iterator := None |}.

(** One pull of the asynchronous wrapper, promises awaited in sequence.
    The first pull runs [const iterator = iter[Symbol.asyncIterator]()];
    every turn calls [iterator.next.bind(iter)], that is the iterator's
    [next] invoked on [iter], whatever object [iterator] is. *)
Definition async_pull (context : option Ctx) (g : AsyncGen) :
    Comp Ctx (IteratorResult T * AsyncGen) :=
  match ag_state g with
  | Completed => ret (Done, g)
  | Suspended =>
      let iterator :=
        match ag_iterator g with
        | Some it => it
        | None => asyncIterator (ag_iter g)
        end in
      bind (runWithConfig context (next (ag_iter g))) (λ '(r, iter'),
        let g' st :=
          {| ag_state := st; ag_iter := iter'; ag_iterator := Some iterator |} in
        match r with
        | Yield value => ret (Yield value, g' Suspended)
        | Done => ret (Done, g' Completed)
        | Thrown e => ret (Thrown e, g' Completed)
        end)
  end.

(** The object the iterator's [next] runs on when the iterable is consumed
    directly ([for await (const x of iter)] calls [iterator.next()]). *)
Definition iterator_object (iter : O) : O :=
  match asyncIterator iter with
  | ItSelf => iter
  | ItFresh fields => fields
  end.

(** One pull of the underlying sequence with the context installed. *)
Definition pull_in_context (context : option Ctx) (this : O) :
    Comp Ctx (IteratorResult T * O) :=
  runWithConfig context (next this).

End Wrappers.

(** [n] successive pulls, the results in order. *)
Fixpoint pull_n {Ctx T S : Type} (pull : S → Comp Ctx (IteratorResult T * S))
    (n : nat) (s : S) : Comp Ctx (list (IteratorResult T) * S) :=
  match n with
  | O => ret ([], s)
  | S n' =>
      bind (pull s) (λ '(r, s'),
      bind (pull_n pull n' s') (λ '(rs, s''),
      ret (r :: rs, s'')))
  end.

(** A result sequence as a consumer sees it: after the first completion or
    failure every further pull answers [Done]. *)
Fixpoint seal {T} (rs : list (IteratorResult T)) : list (IteratorResult T) :=
  match rs with
  | [] => []
  | Yield v :: rs' => Yield v :: seal rs'
  | r :: rs' => r :: replicate (length rs') Done
  end.

Definition is_Yield {T} (r : IteratorResult T) : bool :=
  match r with Yield _ => true | _ => false end.

(** *** A sample iterable that is not its own iterator

    [{ [Symbol.asyncIterator]() { return { i: 0, async next() {
         return this.i < 3 ? { value: this.i++, done: false }
                           : { value: undefined, done: true } } } } }]. *)

Definition counter_next {Ctx} (this : gmap string Z) :
    Comp Ctx (IteratorResult Z * gmap string Z) :=
  ret (match this !! "i" with
       | Some i => if i <? 3 then (Yield i, <["i" := i + 1]> this) else (Done, this)
       | None => (Done, this)
       end).

Definition counter_asyncIterator (this : gmap string Z) : IteratorRef (gmap string Z) :=
  ItFresh {[ "i" := 0 ]}.

Definition counter_iterable : gmap string Z := ∅.

Definition quiet_world {Ctx} : World Ctx := {| ambient := None; installs := 0 |}.

(** The state a wrapper generator is left in by a result. *)
Definition state_after {T} (r : IteratorResult T) : GenState :=
  if is_Yield r then Suspended else Completed.

(** ** Tool calls ([defaultToolCallParser], iter.ts lines 322-352) *)

(** A raw tool call of the wire format, [{ id, index, function: { name,
    arguments } }]; an absent property is [None]. *)
Record RawFunction := {
  fn_name : option string;
  fn_arguments : option string;
}.

Record RawToolCall := {
  rtc_function : option RawFunction;
  rtc_id : option string;
  rtc_index : option Z;
}.

(** [ToolCall]: [{ name, args, id }]. *)
Record ToolCall := {
  tc_name : string;
  tc_args : Value;
  tc_id : option string;
}.

(** [InvalidToolCall]: [{ name, args, id, error }]. *)
Record InvalidToolCall := {
  itc_name : option string;
  itc_args : option string;
  itc_id : option string;
  itc_error : option string;
}.

(** [ToolCallChunk]: [{ name, args, id, index, type: "tool_call_chunk" }]. *)
Record ToolCallChunk := {
  tcc_name : option string;
  tcc_args : option string;
  tcc_id : option string;
  tcc_index : option Z;
}.

(** [x || ""] on an optional string. *)
Definition or_empty (x : option string) : string :=
  match x with
  | Some s => s
  | None => ""
  end.

Section ToolCallParser.

(** [JSON.parse] of the JavaScript runtime: the parsed value, or [None]
    when it throws. *)
Variable JSON_parse : string → option Value.

(** [JSON.parse(toolCall.function.arguments)]; an absent argument string
    ([undefined]) is not JSON text, so the call throws. *)
Definition parse_arguments (f : RawFunction) : option Value :=
  match fn_arguments f with
  | Some text => JSON_parse text
  | None => None
  end.

(** The object pushed to [toolCalls] inside [try]. *)
Definition parsed_call (toolCall : RawToolCall) (f : RawFunction)
    (functionArgs : Value) : ToolCall :=
  {| tc_name := or_empty (fn_name f);
     tc_args := if truthy functionArgs then functionArgs else VMap ∅;
     tc_id := rtc_id toolCall |}.

(** The object pushed to [invalidToolCalls] inside [catch]. *)
Definition malformed_call (toolCall : RawToolCall) (f : RawFunction) :
    InvalidToolCall :=
  {| itc_name := fn_name f;
     itc_args := fn_arguments f;
     itc_id := rtc_id toolCall;
     itc_error := Some "Malformed args." |}.

(** One turn of [for (const toolCall of rawToolCalls)]. *)
Definition parser_step (acc : list ToolCall * list InvalidToolCall)
    (toolCall : RawToolCall) : list ToolCall * list InvalidToolCall :=
  match rtc_function toolCall with
  | None => acc
  | Some f =>
      match parse_arguments f with
      | Some functionArgs => (acc.1 ++ [parsed_call toolCall f functionArgs], acc.2)
      | None => (acc.1, acc.2 ++ [malformed_call toolCall f])
      end
  end.

Definition defaultToolCallParser (rawToolCalls : list RawToolCall) :
    list ToolCall * list InvalidToolCall :=
  foldl parser_step ([], []) rawToolCalls.

(** The two sides of the partition, entry by entry. *)
Definition valid_of (toolCall : RawToolCall) : option ToolCall :=
  match rtc_function toolCall with
  | Some f =>
      match parse_arguments f with
      | Some functionArgs => Some (parsed_call toolCall f functionArgs)
      | None => None
      end
  | None => None
  end.

Definition invalid_of (toolCall : RawToolCall) : option InvalidToolCall :=
  match rtc_function toolCall with
  | Some f =>
      match parse_arguments f with
      | Some _ => None
      | None => Some (malformed_call toolCall f)
      end
  | None => None
  end.

Definition has_function (toolCall : RawToolCall) : bool :=
  match rtc_function toolCall with Some _ => true | None => false end.

End ToolCallParser.

(** ** Streamed chat completions (chat_models.ts) *)

(** [MessageType]: the six types of the chunk classes
    [_convertDeltaToMessageChunk] builds, which are the six
    [messageToOpenAIRole] names, and any further type string
    ([other_type]). *)
Inductive MessageType :=
  | human | ai | system | function | tool | generic
  | other_type (type : string).

(** [usage_metadata]: [{ input_tokens, output_tokens, total_tokens }]. *)
Record UsageMetadata := {
  input_tokens : Z;
  output_tokens : Z;
  total_tokens_out : Z;
}.

(** The fields of the message chunk classes that the code below sets. *)
Record MessageChunk := {
  m_type : MessageType;
  m_content : MessageContent;
  m_additional_kwargs : gmap string Value;
  m_response_metadata : gmap string Value;
  m_tool_call_chunks : list ToolCallChunk;
  m_usage_metadata : option UsageMetadata;
  m_id : option string;
  m_name : option string;
  m_tool_call_id : option string;
  m_role : option string;
}.

(** [ChatGenerationChunk]: [{ text, message, generationInfo }]. *)
Record ChatGenerationChunk := {
  text : string;
  message : MessageChunk;
  generationInfo : option (gmap string Value);
}.

(** [CompletionUsage] of the OpenAI client. *)
Record CompletionUsage := {
  prompt_tokens : Z;
  completion_tokens : Z;
  total_tokens : Z;
}.

(** [choice.delta]. *)
Record Delta := {
  d_role : option string;
  d_content : option MessageContent;
  d_function_call : option Value;
  d_tool_calls : option (list RawToolCall);
  d_name : option string;
  d_tool_call_id : option string;
}.

(** [data.choices[i]]; [ch_finish_reason = None] is [undefined],
    [Some VNull] is [null]. *)
Record Choice := {
  ch_index : option Z;
  ch_delta : option Delta;
  ch_finish_reason : option Value;
  ch_logprobs : option Value;
}.

(** One [ChatCompletionChunk] of the response stream; [cc_raw] is the wire
    object itself, kept for [__raw_response]. *)
Record ChatCompletionChunk := {
  cc_id : option string;
  cc_choices : list Choice;
  cc_usage : option CompletionUsage;
  cc_system_fingerprint : option string;
  cc_raw : Value;
}.

(** The fields of [this] and of [options] that the stream reads. *)
Record StreamSettings := {
  logprobs : bool;
  includeRawResponse : bool;
  promptIndex : option Z;
  signal_aborted : bool;
}.

Definition insert_opt (k : string) (v : option Value) (m : gmap string Value) :
    gmap string Value :=
  match v with
  | Some x => <[k := x]> m
  | None => m
  end.

Definition opt_str (s : option string) : option Value := VStr <$> s.

(** A raw tool call as the free-form value it is on the wire. *)
Definition raw_tool_call_value (r : RawToolCall) : Value :=
  VMap (insert_opt "function"
          ((λ f, VMap (insert_opt "name" (opt_str (fn_name f))
                         (insert_opt "arguments" (opt_str (fn_arguments f)) ∅)))
             <$> rtc_function r)
       (insert_opt "id" (opt_str (rtc_id r))
       (insert_opt "index" (VNum <$> rtc_index r) ∅))).

Definition plain_chunk (t : MessageType) (content : MessageContent) : MessageChunk :=
  {| m_type := t;
     m_content := content;
     m_additional_kwargs := ∅;
     m_response_metadata := ∅;
     m_tool_call_chunks := [];
     m_usage_metadata := None;
     m_id := None;
     m_name := None;
     m_tool_call_id := None;
     m_role := None |}.

(** [_convertDeltaToMessageChunk], chat_models.ts lines 181-243. *)
Definition _convertDeltaToMessageChunk (delta : Delta)
    (rawResponse : ChatCompletionChunk) (defaultRole : option string)
    (includeRaw : bool) : MessageChunk :=
  let role := match d_role delta with Some r => Some r | None => defaultRole end in
  let content := match d_content delta with Some c => c | None => ContentText "" end in
  let tool_calls_kwargs : gmap string Value :=
    match d_tool_calls delta with
    | Some l => {[ "tool_calls" := VSeq (raw_tool_call_value <$> l) ]}
    | None => ∅
    end in
  let additional_kwargs :=
    match d_function_call delta with
    | Some fc => if truthy fc then {[ "function_call" := fc ]} else tool_calls_kwargs
    | None => tool_calls_kwargs
    end in
  let additional_kwargs :=
    if includeRaw then <["__raw_response" := cc_raw rawResponse]> additional_kwargs
    else additional_kwargs in
  let base t := plain_chunk t content in
  match role with
  | Some "user" => base human
  | Some "assistant" =>
      let toolCallChunks :=
        match d_tool_calls delta with
        | Some l =>
            (λ rawToolCall,
               {| tcc_name := rtc_function rawToolCall ≫= fn_name;
                  tcc_args := rtc_function rawToolCall ≫= fn_arguments;
                  tcc_id := rtc_id rawToolCall;
                  tcc_index := rtc_index rawToolCall |}) <$> l
        | None => []
        end in
      {| m_type := ai; m_content := content;
         m_additional_kwargs := additional_kwargs;
         m_response_metadata := ∅;
         m_tool_call_chunks := toolCallChunks;
         m_usage_metadata := None;
         m_id := cc_id rawResponse; m_name := None;
         m_tool_call_id := None; m_role := None |}
  | Some "system" => base system
  | Some "function" =>
      {| m_type := function; m_content := content;
         m_additional_kwargs := additional_kwargs;
         m_response_metadata := ∅; m_tool_call_chunks := [];
         m_usage_metadata := None; m_id := None; m_name := d_name delta;
         m_tool_call_id := None; m_role := None |}
  | Some "tool" =>
      {| m_type := tool; m_content := content;
         m_additional_kwargs := additional_kwargs;
         m_response_metadata := ∅; m_tool_call_chunks := [];
         m_usage_metadata := None; m_id := None; m_name := None;
         m_tool_call_id := d_tool_call_id delta; m_role := None |}
  | _ =>
      {| m_type := generic; m_content := content;
         m_additional_kwargs := ∅;
         m_response_metadata := ∅; m_tool_call_chunks := [];
         m_usage_metadata := None; m_id := None; m_name := None;
         m_tool_call_id := None; m_role := role |}
  end.

(** The loop state of [_streamResponseChunks]: the chunks yielded so far,
    [defaultRole] and [usage]. *)
Record StreamState := {
  st_yielded : list ChatGenerationChunk;
  st_defaultRole : option string;
  st_usage : option CompletionUsage;
}.

(** [generationInfo] of a yielded chunk, chat_models.ts lines 1138-1158. *)
Definition generation_info (cfg : StreamSettings) (data : ChatCompletionChunk)
    (choice : Choice) : gmap string Value :=
  let newTokenIndices : gmap string Value :=
    {[ "prompt" := VNum (default 0 (promptIndex cfg));
       "completion" := VNum (default 0 (ch_index choice)) ]} in
  let info :=
    match ch_finish_reason choice with
    | Some reason =>
        insert_opt "system_fingerprint" (opt_str (cc_system_fingerprint data))
          (<["finish_reason" := reason]> newTokenIndices)
    | None => newTokenIndices
    end in
  if logprobs cfg then insert_opt "logprobs" (ch_logprobs choice) info else info.

(** One turn of [for await (const data of streamIterable)],
    chat_models.ts lines 1118-1173. *)
Definition stream_step (cfg : StreamSettings) (st : StreamState)
    (data : ChatCompletionChunk) : StreamState :=
  let usage := match cc_usage data with Some u => Some u | None => st_usage st end in
  let skip := {| st_yielded := st_yielded st;
                 st_defaultRole := st_defaultRole st;
                 st_usage := usage |} in
  match head (cc_choices data) with
  | None => skip
  | Some choice =>
      match ch_delta choice with
      | None => skip
      | Some delta =>
          let chunk := _convertDeltaToMessageChunk delta data (st_defaultRole st)
                         (includeRawResponse cfg) in
          let defaultRole :=
            match d_role delta with Some r => Some r | None => st_defaultRole st end in
          match m_content chunk with
          | ContentParts _ =>
              {| st_yielded := st_yielded st;
                 st_defaultRole := defaultRole;
                 st_usage := usage |}
          | ContentText content =>
              let generationChunk :=
                {| text := content;
                   message := chunk;
                   generationInfo := Some (generation_info cfg data choice) |} in
              {| st_yielded := st_yielded st ++ [generationChunk];
                 st_defaultRole := defaultRole;
                 st_usage := usage |}
          end
      end
  end.

(** The chunk yielded after the loop when [usage] is set, lines 1174-1187. *)
Definition usage_chunk (usage : CompletionUsage) : ChatGenerationChunk :=
  {| text := "";
     message :=
       {| m_type := ai; m_content := ContentText "";
          m_additional_kwargs := ∅; m_response_metadata := ∅;
          m_tool_call_chunks := [];
          m_usage_metadata :=
            Some {| input_tokens := prompt_tokens usage;
                    output_tokens := completion_tokens usage;
                    total_tokens_out := total_tokens usage |};
          m_id := None; m_name := None; m_tool_call_id := None; m_role := None |};
     generationInfo := None |}.

(** The loop state before the first chunk: [let defaultRole], [let usage]. *)
Definition stream_init : StreamState :=
  {| st_yielded := []; st_defaultRole := None; st_usage := None |}.

(** What consuming a generator to its end gives: the chunks it yielded and
    the failure it ended with, if any. *)
Definition Stream : Type := list ChatGenerationChunk * option string.

(** [ChatOpenAI._streamResponseChunks], chat_models.ts lines 1101-1191, on a
    response stream that delivers [streamIterable] and ends. *)
Definition _streamResponseChunks (cfg : StreamSettings)
    (streamIterable : list ChatCompletionChunk) : Stream :=
  let st := foldl (stream_step cfg) stream_init streamIterable in
  (st_yielded st ++
     match st_usage st with
     | Some usage => [usage_chunk usage]
     | None => []
     end,
   if signal_aborted cfg then Some "AbortError" else None).

Definition carries_usage (c : ChatGenerationChunk) : bool :=
  match m_usage_metadata (message c) with Some _ => true | None => false end.

(** ** The streaming branch of [_generate] (chat_models.ts lines 1212-1230) *)

(** A call returns or throws. *)
Inductive Outcome (A : Type) :=
  | Returned (a : A)
  | Threw (failure : string).

Arguments Returned {A} a.
Arguments Threw {A} failure.

(** [chunk.generationInfo?.completion ?? 0]; [NewTokenIndices] declares
    [completion: number], other values are read as absent. *)
Definition completion_index (chunk : ChatGenerationChunk) : Z :=
  match generationInfo chunk with
  | Some info =>
      match info !! "completion" with
      | Some (VNum n) => n
      | _ => 0
      end
  | None => 0
  end.

(** [chunk.message.response_metadata = { ...chunk.generationInfo,
    ...chunk.message.response_metadata }]: the later spread wins a key. *)
Definition absorb_info (chunk : ChatGenerationChunk) : ChatGenerationChunk :=
  let m := message chunk in
  {| text := text chunk;
     message :=
       {| m_type := m_type m; m_content := m_content m;
          m_additional_kwargs := m_additional_kwargs m;
          m_response_metadata :=
            m_response_metadata m ∪ default ∅ (generationInfo chunk);
          m_tool_call_chunks := m_tool_call_chunks m;
          m_usage_metadata := m_usage_metadata m;
          m_id := m_id m; m_name := m_name m;
          m_tool_call_id := m_tool_call_id m; m_role := m_role m |};
     generationInfo := generationInfo chunk |}.

(** The order of [(a, b) => parseInt(aKey, 10) - parseInt(bKey, 10)] on
    the entries; a key is kept as the integer it is the decimal text of. *)
Definition by_key {A} (x y : Z * A) : Prop := x.1 ≤ y.1.

#[local] Instance by_key_dec {A} (x y : Z * A) : Decision (by_key x y) :=
  Z_le_dec x.1 y.1.

Section Generate.

(** [ChatGenerationChunk.concat] of [@langchain/core/outputs] is not among
    the sources: a parameter of the model. *)
Variable concat : ChatGenerationChunk → ChatGenerationChunk → ChatGenerationChunk.

(** One turn of [for await (const chunk of stream)], lines 1215-1227;
    [finalChunks] is a [Record<number, ChatGenerationChunk>]. *)
Definition generate_step (finalChunks : gmap Z ChatGenerationChunk)
    (chunk : ChatGenerationChunk) : gmap Z ChatGenerationChunk :=
  let chunk := absorb_info chunk in
  let index := completion_index chunk in
  match finalChunks !! index with
  | None => <[index := chunk]> finalChunks
  | Some existing => <[index := concat existing chunk]> finalChunks
  end.

(** [Object.entries(finalChunks).sort(...).map(([_, value]) => value)]. *)
Definition generations_of (finalChunks : gmap Z ChatGenerationChunk) :
    list ChatGenerationChunk :=
  snd <$> merge_sort by_key (map_to_list finalChunks).

(** The streaming branch up to [generations]: a failure of the stream
    leaves the [for await] and the call. *)
Definition generate_stream (stream : Stream) : Outcome (list ChatGenerationChunk) :=
  let finalChunks := foldl generate_step ∅ stream.1 in
  match stream.2 with
  | Some failure => Threw failure
  | None => Returned (generations_of finalChunks)
  end.

(** *** The aggregation in the spec's words (section 4.2) *)

(** The fragments of one stream index, in arrival order. *)
Definition group (i : Z) (chunks : list ChatGenerationChunk) :
    list ChatGenerationChunk :=
  filter (λ c, completion_index c = i) chunks.

(** Pairwise merge in arrival order, seeded with the first fragment. *)
Definition fold_group (g : list ChatGenerationChunk) : option ChatGenerationChunk :=
  match g with
  | [] => None
  | first :: rest => Some (foldl concat first rest)
  end.

(** The distinct stream indices in ascending order. *)
Definition ascending_indices (chunks : list ChatGenerationChunk) : list Z :=
  merge_sort Z.le (remove_dups (completion_index <$> chunks)).

Definition aggregate_by_index (chunks : list ChatGenerationChunk) :
    list ChatGenerationChunk :=
  omap (λ i, fold_group (group i (absorb_info <$> chunks)))
       (ascending_indices chunks).

End Generate.

(** *** Sample streams

    A stand-in for [ChatGenerationChunk.concat] in the closed examples
    (texts and contents concatenate, maps merge, tool call pieces append,
    the first id and the later usage win).  Every lemma of Part II about
    [generate_stream] is proved for an arbitrary [concat]. *)
Definition sample_concat (a b : ChatGenerationChunk) : ChatGenerationChunk :=
  let ma := message a in
  let mb := message b in
  {| text := text a +:+ text b;
     message :=
       {| m_type := m_type ma;
          m_content :=
            default (ContentText "")
              (spec_mergeContent (Some (m_content ma)) (Some (m_content mb)));
          m_additional_kwargs :=
            spec_mergeDicts (m_additional_kwargs ma) (m_additional_kwargs mb);
          m_response_metadata :=
            spec_mergeDicts (m_response_metadata ma) (m_response_metadata mb);
          m_tool_call_chunks := m_tool_call_chunks ma ++ m_tool_call_chunks mb;
          m_usage_metadata :=
            match m_usage_metadata mb with
            | Some u => Some u
            | None => m_usage_metadata ma
            end;
          m_id := match m_id ma with Some i => Some i | None => m_id mb end;
          m_name := m_name ma;
          m_tool_call_id := m_tool_call_id ma;
          m_role := m_role ma |};
     generationInfo :=
       union_with (λ x y, Some (spec_mergeDicts x y))
         (generationInfo a) (generationInfo b) |}.

(** A text fragment of completion [i] ([None]: no [generationInfo]). *)
Definition text_fragment (s : string) (i : option Z) : ChatGenerationChunk :=
  {| text := s;
     message := plain_chunk ai (ContentText s);
     generationInfo := (λ n, {[ "completion" := VNum n ]}) <$> i |}.

(** An iterable that is its own iterator, as a generator object is. *)
Definition self_asyncIterator (this : gmap string Z) : IteratorRef (gmap string Z) :=
  ItSelf.

(** Wire chunks: a text delta, and the closing chunk that reports usage. *)
Definition data_text (s : string) : ChatCompletionChunk :=
  {| cc_id := Some "chatcmpl-1";
     cc_choices :=
       [ {| ch_index := Some 0;
            ch_delta := Some {| d_role := Some "assistant";
                                d_content := Some (ContentText s);
                                d_function_call := None; d_tool_calls := None;
                                d_name := None; d_tool_call_id := None |};
            ch_finish_reason := None; ch_logprobs := None |} ];
     cc_usage := None; cc_system_fingerprint := None; cc_raw := VNull |}.

Definition data_usage (p c : Z) : ChatCompletionChunk :=
  {| cc_id := Some "chatcmpl-1";
     cc_choices := [];
     cc_usage := Some {| prompt_tokens := p; completion_tokens := c;
                          total_tokens := p + c |};
     cc_system_fingerprint := None; cc_raw := VNull |}.

Definition quiet_settings : StreamSettings :=
  {| logprobs := false; includeRawResponse := false;
     promptIndex := None; signal_aborted := false |}.

(** ** More of the chat model (chat_models.ts) *)

(** JavaScript truthiness of an optional string or value. *)
Definition truthy_str (s : option string) : bool :=
  match s with
  | Some x => negb (String.eqb x "")
  | None => false
  end.

Definition truthy_opt (v : option Value) : bool :=
  match v with
  | Some x => truthy x
  | None => false
  end.

(** [x != null] on an optional value. *)
Definition non_null (v : option Value) : bool :=
  match v with
  | Some VNull | None => false
  | Some _ => true
  end.

(** *** Roles ([messageToOpenAIRole], lines 97-132) *)

Section Roles.

(** [ChatMessage.isInstance] of [@langchain/core/messages], not among the
    sources. *)
Variable ChatMessage_isInstance : MessageChunk → bool.

(** [extractGenericMessageCustomRole], lines 97-109: the role as it is;
    the console warning for a role outside the five is not modelled. *)
Definition extractGenericMessageCustomRole (message : MessageChunk) : option string :=
  m_role message.

(** [message._getType()]. *)
Definition _getType (message : MessageChunk) : string :=
  match m_type message with
  | human => "human"
  | ai => "ai"
  | system => "system"
  | function => "function"
  | tool => "tool"
  | generic => "generic"
  | other_type type => type
  end.

(** [messageToOpenAIRole], lines 111-132: the [switch] compares the type
    with each case in turn and falls to [default] when none is equal. *)
Definition messageToOpenAIRole (message : MessageChunk) : Outcome (option string) :=
  let type := _getType message in
  if String.eqb type "system" then Returned (Some "system")
  else if String.eqb type "ai" then Returned (Some "assistant")
  else if String.eqb type "human" then Returned (Some "user")
  else if String.eqb type "function" then Returned (Some "function")
  else if String.eqb type "tool" then Returned (Some "tool")
  else if String.eqb type "generic" then
    if ChatMessage_isInstance message
    then Returned (extractGenericMessageCustomRole message)
    else Threw "Invalid generic chat message"
  else Threw ("Unknown message type: " +:+ type).

End Roles.

(** *** Messages with tool calls *)

(** A message as the functions below read it: the base fields, and the
    [tool_calls] / [invalid_tool_calls] of an AI message. *)
Record Message := {
  msg_fields : MessageChunk;
  msg_tool_calls : list ToolCall;
  msg_invalid_tool_calls : list InvalidToolCall;
}.

(** [ChatCompletionMessage]: [{ role, content, tool_calls, function_call }];
    a [null] or absent content is [None]. *)
Record ResponseMessage := {
  rm_role : option string;
  rm_content : option string;
  rm_tool_calls : option (list RawToolCall);
  rm_function_call : option Value;
}.

(** [data.choices[i]] of a [ChatCompletion]. *)
Record ResponseChoice := {
  rc_message : option ResponseMessage;
  rc_finish_reason : option Value;
  rc_logprobs : option Value;
}.

(** A [ChatCompletion]; [c_raw] is the wire object itself. *)
Record ChatCompletion := {
  c_id : option string;
  c_choices : list ResponseChoice;
  c_usage : option CompletionUsage;
  c_system_fingerprint : option string;
  c_raw : Value;
}.

Section ResponseToMessage.

(** [parseToolCall(rawToolCall, { returnId: true })] and
    [makeInvalidToolCall] of [@langchain/core/output_parsers/openai_tools],
    not among the sources: the first returns a tool call or throws an error
    with a message. *)
Variable parseToolCall : RawToolCall → Outcome ToolCall.
Variable makeInvalidToolCall : RawToolCall → string → InvalidToolCall.

(** One turn of [for (const rawToolCall of rawToolCalls ?? [])]. *)
Definition response_tool_step (acc : list ToolCall * list InvalidToolCall)
    (rawToolCall : RawToolCall) : list ToolCall * list InvalidToolCall :=
  match parseToolCall rawToolCall with
  | Returned toolCall => (acc.1 ++ [toolCall], acc.2)
  | Threw e => (acc.1, acc.2 ++ [makeInvalidToolCall rawToolCall e])
  end.

(** [openAIResponseToChatMessage], lines 134-179.  [includeRawResponse] is
    tested with [!== undefined], so [Some false] attaches the raw response
    too. *)
Definition openAIResponseToChatMessage (message : ResponseMessage)
    (rawResponse : ChatCompletion) (includeRawResponse : option bool) : Message :=
  let rawToolCalls := rm_tool_calls message in
  match rm_role message with
  | Some "assistant" =>
      let '(toolCalls, invalidToolCalls) :=
        foldl response_tool_step ([], []) (default [] rawToolCalls) in
      let additional_kwargs : gmap string Value :=
        insert_opt "function_call" (rm_function_call message)
          (insert_opt "tool_calls"
             ((λ l, VSeq (raw_tool_call_value <$> l)) <$> rawToolCalls) ∅) in
      let additional_kwargs :=
        match includeRawResponse with
        | Some _ => <["__raw_response" := c_raw rawResponse]> additional_kwargs
        | None => additional_kwargs
        end in
      let response_metadata : gmap string Value :=
        if truthy_str (c_system_fingerprint rawResponse)
        then insert_opt "system_fingerprint"
               (opt_str (c_system_fingerprint rawResponse)) ∅
        else ∅ in
      {| msg_fields :=
           {| m_type := ai;
              m_content := ContentText (or_empty (rm_content message));
              m_additional_kwargs := additional_kwargs;
              m_response_metadata := response_metadata;
              m_tool_call_chunks := [];
              m_usage_metadata := None;
              m_id := c_id rawResponse; m_name := None;
              m_tool_call_id := None; m_role := None |};
         msg_tool_calls := toolCalls;
         msg_invalid_tool_calls := invalidToolCalls |}
  | role =>
      {| msg_fields :=
           {| m_type := generic;
              m_content := ContentText (or_empty (rm_content message));
              m_additional_kwargs := ∅;
              m_response_metadata := ∅;
              m_tool_call_chunks := [];
              m_usage_metadata := None;
              m_id := None; m_name := None;
              m_tool_call_id := None;
              m_role := Some (default "unknown" role) |};
         msg_tool_calls := [];
         msg_invalid_tool_calls := [] |}
  end.

End ResponseToMessage.

(** *** Outgoing messages ([convertMessagesToOpenAIParams], lines 245-275) *)

(** One entry of the request's [messages]; [cp_content = None] is
    [content: null]. *)
Record CompletionParam := {
  cp_role : option string;
  cp_content : option MessageContent;
  cp_name : option string;
  cp_function_call : option Value;
  cp_tool_calls : option Value;
  cp_tool_call_id : option string;
}.

Section ConvertMessages.

Variable ChatMessage_isInstance : MessageChunk → bool.

(** [isAIMessage] of [@langchain/core/messages] and
    [convertLangChainToolCallToOpenAI] of
    [@langchain/core/output_parsers/openai_tools], not among the sources. *)
Variable isAIMessage : Message → bool.
Variable convertLangChainToolCallToOpenAI : ToolCall → Value.

(** [isAIMessage(message) && !!message.tool_calls?.length]. *)
Definition has_tool_calls (message : Message) : bool :=
  isAIMessage message &&
  match msg_tool_calls message with [] => false | _ => true end.

(** The callback of [messages.map], lines 247-274. *)
Definition convertMessage (message : Message) : Outcome CompletionParam :=
  let m := msg_fields message in
  match messageToOpenAIRole ChatMessage_isInstance m with
  | Threw e => Threw e
  | Returned role =>
      let function_call := m_additional_kwargs m !! "function_call" in
      let with_function_call := non_null function_call in
      Returned
        {| cp_role := role;
           cp_content :=
             if with_function_call || has_tool_calls message then None
             else Some (m_content m);
           cp_name := m_name m;
           cp_function_call := if with_function_call then function_call else None;
           cp_tool_calls :=
             if has_tool_calls message
             then Some (VSeq (convertLangChainToolCallToOpenAI <$>
                                msg_tool_calls message))
             else if non_null (m_additional_kwargs m !! "tool_calls")
                  then m_additional_kwargs m !! "tool_calls"
                  else None;
           cp_tool_call_id :=
             if has_tool_calls message then None else m_tool_call_id m |}
  end.

(** [Array.prototype.map] with a callback that may throw: the first
    failure leaves the call. *)
Fixpoint map_outcome {A B} (f : A → Outcome B) (l : list A) : Outcome (list B) :=
  match l with
  | [] => Returned []
  | x :: l' =>
      match f x with
      | Threw e => Threw e
      | Returned y =>
          match map_outcome f l' with
          | Threw e => Threw e
          | Returned ys => Returned (y :: ys)
          end
      end
  end.

Definition convertMessagesToOpenAIParams (messages : list Message) :
    Outcome (list CompletionParam) :=
  map_outcome convertMessage messages.

End ConvertMessages.

(** *** Token usage ([_combineLLMOutput], lines 1526-1546) *)

(** [TokenUsage]: three optional counters. *)
Record TokenUsage := {
  completionTokens : option Z;
  promptTokens : option Z;
  totalTokens : option Z;
}.

(** An [llmOutput] as [_generate] returns it: [{ tokenUsage }] from the
    plain branch, [{ estimatedTokenUsage }] from the streaming branch. *)
Record LLMOutput := {
  tokenUsage : option TokenUsage;
  estimatedTokenUsage : option TokenUsage;
}.

(** The accumulator of the [reduce]: three numbers. *)
Record TokenTotals := {
  sum_completion : Z;
  sum_prompt : Z;
  sum_total : Z;
}.

Definition no_tokens : TokenTotals :=
  {| sum_completion := 0; sum_prompt := 0; sum_total := 0 |}.

Definition add_totals (a b : TokenTotals) : TokenTotals :=
  {| sum_completion := sum_completion a + sum_completion b;
     sum_prompt := sum_prompt a + sum_prompt b;
     sum_total := sum_total a + sum_total b |}.

(** The callback of the [reduce]; an entry of [llmOutputs] may be
    [undefined]. *)
Definition combine_step (acc : TokenTotals) (llmOutput : option LLMOutput) :
    TokenTotals :=
  match llmOutput ≫= tokenUsage with
  | Some usage =>
      {| sum_completion := sum_completion acc + default 0 (completionTokens usage);
         sum_prompt := sum_prompt acc + default 0 (promptTokens usage);
         sum_total := sum_total acc + default 0 (totalTokens usage) |}
  | None => acc
  end.

Definition _combineLLMOutput (llmOutputs : list (option LLMOutput)) : TokenTotals :=
  foldl combine_step no_tokens llmOutputs.

(** *** The plain branch of [_generate] (lines 1250-1309) *)

(** [ChatGeneration]: [{ text, message, generationInfo }]. *)
Record ChatGeneration := {
  g_text : string;
  g_message : Message;
  g_generationInfo : gmap string Value;
}.

(** A counter as [if (x)] and [x ?? 0] read it. *)
Definition nonzero (n : option Z) : option Z :=
  match n with
  | Some 0 | None => None
  | Some k => Some k
  end.

(** [message.usage_metadata = ...] on the message object. *)
Definition set_usage_metadata (u : UsageMetadata) (message : Message) : Message :=
  let m := msg_fields message in
  {| msg_fields :=
       {| m_type := m_type m; m_content := m_content m;
          m_additional_kwargs := m_additional_kwargs m;
          m_response_metadata := m_response_metadata m;
          m_tool_call_chunks := m_tool_call_chunks m;
          m_usage_metadata := Some u;
          m_id := m_id m; m_name := m_name m;
          m_tool_call_id := m_tool_call_id m; m_role := m_role m |};
     msg_tool_calls := msg_tool_calls message;
     msg_invalid_tool_calls := msg_invalid_tool_calls message |}.

Section GeneratePlain.

Variable parseToolCall : RawToolCall → Outcome ToolCall.
Variable makeInvalidToolCall : RawToolCall → string → InvalidToolCall.
Variable isAIMessage : Message → bool.

(** [tokenUsage] after lines 1262-1279: it starts empty, so each counter is
    set exactly when the response's counter is truthy. *)
Definition plain_token_usage (data : ChatCompletion) : TokenUsage :=
  {| completionTokens := nonzero (completion_tokens <$> c_usage data);
     promptTokens := nonzero (prompt_tokens <$> c_usage data);
     totalTokens := nonzero (total_tokens <$> c_usage data) |}.

(** One turn of [for (const part of data?.choices ?? [])]. *)
Definition plain_generation (includeRawResponse : option bool)
    (data : ChatCompletion) (tokenUsage : TokenUsage) (part : ResponseChoice) :
    ChatGeneration :=
  let text := or_empty (rc_message part ≫= rm_content) in
  let message :=
    openAIResponseToChatMessage parseToolCall makeInvalidToolCall
      (default {| rm_role := Some "assistant"; rm_content := None;
                  rm_tool_calls := None; rm_function_call := None |}
               (rc_message part))
      data includeRawResponse in
  (* { ...(finish_reason), ...(logprobs) }: the later spread wins a key *)
  let generationInfo : gmap string Value :=
    (if truthy_opt (rc_logprobs part)
     then insert_opt "logprobs" (rc_logprobs part) ∅ else ∅) ∪
    (if truthy_opt (rc_finish_reason part)
     then insert_opt "finish_reason" (rc_finish_reason part) ∅ else ∅) in
  {| g_text := text;
     g_message :=
       if isAIMessage message
       then set_usage_metadata
              {| input_tokens := default 0 (promptTokens tokenUsage);
                 output_tokens := default 0 (completionTokens tokenUsage);
                 total_tokens_out := default 0 (totalTokens tokenUsage) |}
              message
       else message;
     g_generationInfo := generationInfo |}.

(** The plain branch of [_generate] on the response [data]. *)
Definition generate_plain (includeRawResponse : option bool) (data : ChatCompletion) :
    list ChatGeneration * LLMOutput :=
  let tokenUsage := plain_token_usage data in
  (plain_generation includeRawResponse data tokenUsage <$> c_choices data,
   {| tokenUsage := Some tokenUsage; estimatedTokenUsage := None |}).

End GeneratePlain.

(** *** The [llmOutput] of the streaming branch (lines 1246-1249) *)

(** [{ estimatedTokenUsage: tokenUsage }] with the three counters the branch
    sets from the two estimates it awaited. *)
Definition estimated_llmOutput (promptTokenUsage completionTokenUsage : Z) :
    LLMOutput :=
  {| tokenUsage := None;
     estimatedTokenUsage :=
       Some {| completionTokens := Some completionTokenUsage;
               promptTokens := Some promptTokenUsage;
               totalTokens := Some (promptTokenUsage + completionTokenUsage) |} |}.

(** A call of [_generate] as far as its [llmOutput] goes: the plain branch
    on a response, or the streaming branch with its two estimates. *)
Inductive GenerateCall :=
  | PlainCall (includeRawResponse : option bool) (data : ChatCompletion)
  | StreamedCall (promptTokenUsage completionTokenUsage : Z).

Definition llmOutput_of (parseToolCall : RawToolCall → Outcome ToolCall)
    (makeInvalidToolCall : RawToolCall → string → InvalidToolCall)
    (isAIMessage : Message → bool) (call : GenerateCall) : LLMOutput :=
  match call with
  | PlainCall includeRawResponse data =>
      (generate_plain parseToolCall makeInvalidToolCall isAIMessage
         includeRawResponse data).2
  | StreamedCall promptTokenUsage completionTokenUsage =>
      estimated_llmOutput promptTokenUsage completionTokenUsage
  end.

(** *** Construction ([constructor], lines 896-998) *)

(** The fields of [ChatOpenAIFields] that decide credentials and streaming;
    an absent [fields] is the record of absent fields.  The token provider
    is a function: only its presence is kept.  [modelKwargs] is a
    dictionary whose keys may hold [undefined] ([Some None]). *)
Record ChatOpenAIFields := {
  f_apiKey : option string;
  f_openAIApiKey : option string;
  f_azureOpenAIApiKey : option string;
  f_azureADTokenProvider : bool;
  f_azureOpenAIApiInstanceName : option string;
  f_azureOpenAIApiDeploymentName : option string;
  f_azureOpenAIApiVersion : option string;
  f_azureOpenAIBasePath : option string;
  f_streaming : option bool;
  f_streamUsage : option bool;
  f_modelKwargs : option (gmap string (option Value));
}.

(** The same fields of the constructed model. *)
Record ChatOpenAI := {
  openAIApiKey : option string;
  apiKey : option string;
  azureOpenAIApiKey : option string;
  azureADTokenProvider : bool;
  azureOpenAIApiInstanceName : option string;
  azureOpenAIApiDeploymentName : option string;
  azureOpenAIApiVersion : option string;
  azureOpenAIBasePath : option string;
  streaming : bool;
  streamUsage : bool;
  modelKwargs : gmap string (option Value);
}.

(** [a ?? b] on optional strings. *)
Definition nullish (a b : option string) : option string :=
  match a with
  | Some x => Some x
  | None => b
  end.

Section Constructor.

(** [getEnvironmentVariable] of [@langchain/core/utils/env], not among the
    sources. *)
Variable getEnvironmentVariable : string → option string.

(** The constructor, lines 896-998, on the fields above; the constructor of
    the base class is taken to return. *)
Definition constructor (fields : ChatOpenAIFields) : Outcome ChatOpenAI :=
  let openAIApiKey :=
    nullish (f_apiKey fields)
      (nullish (f_openAIApiKey fields) (getEnvironmentVariable "OPENAI_API_KEY")) in
  let apiKey := openAIApiKey in
  let azureOpenAIApiKey :=
    nullish (f_azureOpenAIApiKey fields)
      (getEnvironmentVariable "AZURE_OPENAI_API_KEY") in
  let azureADTokenProvider := f_azureADTokenProvider fields in
  if negb (truthy_str azureOpenAIApiKey) && negb (truthy_str apiKey) &&
     negb azureADTokenProvider
  then Threw "OpenAI or Azure OpenAI API key or Token Provider not found"
  else
    let azureOpenAIApiInstanceName :=
      nullish (f_azureOpenAIApiInstanceName fields)
        (getEnvironmentVariable "AZURE_OPENAI_API_INSTANCE_NAME") in
    let azureOpenAIApiDeploymentName :=
      nullish (f_azureOpenAIApiDeploymentName fields)
        (getEnvironmentVariable "AZURE_OPENAI_API_DEPLOYMENT_NAME") in
    let azureOpenAIApiVersion :=
      nullish (f_azureOpenAIApiVersion fields)
        (getEnvironmentVariable "AZURE_OPENAI_API_VERSION") in
    let azureOpenAIBasePath :=
      nullish (f_azureOpenAIBasePath fields)
        (getEnvironmentVariable "AZURE_OPENAI_BASE_PATH") in
    let built apiKey streamUsage :=
      {| openAIApiKey := openAIApiKey;
         apiKey := apiKey;
         azureOpenAIApiKey := azureOpenAIApiKey;
         azureADTokenProvider := azureADTokenProvider;
         azureOpenAIApiInstanceName := azureOpenAIApiInstanceName;
         azureOpenAIApiDeploymentName := azureOpenAIApiDeploymentName;
         azureOpenAIApiVersion := azureOpenAIApiVersion;
         azureOpenAIBasePath := azureOpenAIBasePath;
         streaming := default false (f_streaming fields);
         streamUsage := default streamUsage (f_streamUsage fields);
         modelKwargs := default ∅ (f_modelKwargs fields) |} in
    if truthy_str azureOpenAIApiKey || azureADTokenProvider
    then
      if negb (truthy_str azureOpenAIApiInstanceName) &&
         negb (truthy_str azureOpenAIBasePath)
      then Threw "Azure OpenAI API instance name not found"
      else if negb (truthy_str azureOpenAIApiDeploymentName)
      then Threw "Azure OpenAI API deployment name not found"
      else if negb (truthy_str azureOpenAIApiVersion)
      then Threw "Azure OpenAI API version not found"
      else Returned (built (nullish apiKey (Some "")) false)
    else Returned (built apiKey true).

End Constructor.

(** The local [streamOptionsConfig] of [invocationParams], lines 1046-1051:
    [None] is the empty object, [Some v] is [{ stream_options: v }]. *)
Definition streamOptionsConfig (this : ChatOpenAI) (stream_options : option Value)
    (extra_streaming : option bool) : option Value :=
  match stream_options with
  | Some v => Some v
  | None =>
      if streamUsage this && (streaming this || default false extra_streaming)
      then Some (VMap {[ "include_usage" := VBool true ]})
      else None
  end.

(** [stream_options] of the object [invocationParams] returns, lines
    1052-1084 ([None]: [undefined]).  The literal names no [stream_options]
    of its own: [...streamOptionsConfig] may set it, and
    [...this.modelKwargs], spread last, replaces it when it has the key,
    be it with [undefined]. *)
Definition invocationParams_stream_options (this : ChatOpenAI)
    (stream_options : option Value) (extra_streaming : option bool) :
    option Value :=
  match modelKwargs this !! "stream_options" with
  | Some v => v
  | None => streamOptionsConfig this stream_options extra_streaming
  end.

(** *** Notions the properties are stated with *)

(** The counters a response reports, as sums: an absent [usage] counts 0. *)
Definition usage_totals (usage : option CompletionUsage) : TokenTotals :=
  match usage with
  | Some u =>
      {| sum_completion := completion_tokens u;
         sum_prompt := prompt_tokens u;
         sum_total := total_tokens u |}
  | None => no_tokens
  end.

(** The usage the response of a call reported: none for a streamed call. *)
Definition reported_usage (call : GenerateCall) : TokenTotals :=
  match call with
  | PlainCall _ data => usage_totals (c_usage data)
  | StreamedCall _ _ => no_tokens
  end.

(** The same counters as [usage_metadata]. *)
Definition usage_counters (usage : option CompletionUsage) : UsageMetadata :=
  match usage with
  | Some u =>
      {| input_tokens := prompt_tokens u;
         output_tokens := completion_tokens u;
         total_tokens_out := total_tokens u |}
  | None => {| input_tokens := 0; output_tokens := 0; total_tokens_out := 0 |}
  end.

(** The raw tool calls [parseToolCall] accepts, and those it rejects. *)
Definition parsed_of (parseToolCall : RawToolCall → Outcome ToolCall)
    (rawToolCall : RawToolCall) : option ToolCall :=
  match parseToolCall rawToolCall with
  | Returned toolCall => Some toolCall
  | Threw _ => None
  end.

Definition rejected_of (parseToolCall : RawToolCall → Outcome ToolCall)
    (makeInvalidToolCall : RawToolCall → string → InvalidToolCall)
    (rawToolCall : RawToolCall) : option InvalidToolCall :=
  match parseToolCall rawToolCall with
  | Returned _ => None
  | Threw e => Some (makeInvalidToolCall rawToolCall e)
  end.

(** [additional_kwargs] of [_convertDeltaToMessageChunk] after lines
    190-204, as the assistant, function and tool chunks carry it. *)
Definition delta_additional_kwargs (delta : Delta)
    (rawResponse : ChatCompletionChunk) (includeRaw : bool) : gmap string Value :=
  let tool_calls_kwargs : gmap string Value :=
    match d_tool_calls delta with
    | Some l => {[ "tool_calls" := VSeq (raw_tool_call_value <$> l) ]}
    | None => ∅
    end in
  let additional_kwargs :=
    match d_function_call delta with
    | Some fc => if truthy fc then {[ "function_call" := fc ]} else tool_calls_kwargs
    | None => tool_calls_kwargs
    end in
  if includeRaw then <["__raw_response" := cc_raw rawResponse]> additional_kwargs
  else additional_kwargs.

(** [delta.role] of the choice the stream loop reads, if it reads one. *)
Definition delta_role (data : ChatCompletionChunk) : option string :=
  match head (cc_choices data) with
  | Some choice =>
      match ch_delta choice with
      | Some delta => d_role delta
      | None => None
      end
  | None => None
  end.

(** The messages that have an OpenAI role: those of type system, ai, human,
    function or tool, and the generic messages that are [ChatMessage]s. *)
Definition has_role (ChatMessage_isInstance : MessageChunk → bool)
    (message : Message) : bool :=
  let type := _getType (msg_fields message) in
  bool_decide (type ∈ ["system"; "ai"; "human"; "function"; "tool"]) ||
  (bool_decide (type = "generic") && ChatMessage_isInstance (msg_fields message)).

(** The failure of [messageToOpenAIRole] on a message without a role. *)
Definition role_failure (message : Message) : string :=
  let type := _getType (msg_fields message) in
  if bool_decide (type = "generic") then "Invalid generic chat message"
  else "Unknown message type: " +:+ type.

(** Whether the constructed model talks to an Azure deployment: the test of
    line 960. *)
Definition azure_mode (this : ChatOpenAI) : bool :=
  truthy_str (azureOpenAIApiKey this) || azureADTokenProvider this.

(** The counters of one output add up, absent ones read as 0. *)
Definition balanced (o : option LLMOutput) : Prop :=
  ∀ u, o ≫= tokenUsage = Some u →
    default 0 (totalTokens u) =
    default 0 (promptTokens u) + default 0 (completionTokens u).

(** What holds of every chunk the stream yields: its text is its content;
    it carries the two token indices, or else it is the closing usage
    chunk. *)
Definition yielded_shape (cfg : StreamSettings) (c : ChatGenerationChunk) : Prop :=
  m_content (message c) = ContentText (text c) ∧
  match generationInfo c with
  | Some info =>
      carries_usage c = false ∧
      info !! "prompt" = Some (VNum (default 0 (promptIndex cfg))) ∧
      ∃ n, info !! "completion" = Some (VNum n)
  | None => carries_usage c = true
  end.

(** *** Sample responses

    Stand-ins for the imported functions in the closed examples:
    [ChatMessage.isInstance] and [isAIMessage] test the message type,
    [parseToolCall] accepts a raw call that names its function. *)
Definition is_generic (m : MessageChunk) : bool :=
  String.eqb (_getType m) "generic".

Definition sample_parseToolCall (rawToolCall : RawToolCall) : Outcome ToolCall :=
  match rtc_function rawToolCall ≫= fn_name with
  | Some name =>
      Returned {| tc_name := name; tc_args := VMap ∅; tc_id := rtc_id rawToolCall |}
  | None => Threw "Function name missing"
  end.

Definition sample_makeInvalidToolCall (rawToolCall : RawToolCall)
    (errorMsg : string) : InvalidToolCall :=
  {| itc_name := rtc_function rawToolCall ≫= fn_name;
     itc_args := rtc_function rawToolCall ≫= fn_arguments;
     itc_id := rtc_id rawToolCall;
     itc_error := Some errorMsg |}.

Definition is_ai (message : Message) : bool :=
  String.eqb (_getType (msg_fields message)) "ai".

Definition sample_convertToolCall (toolCall : ToolCall) : Value :=
  VMap {[ "type" := VStr "function"; "id" := VStr (or_empty (tc_id toolCall));
          "function" := VMap {[ "name" := VStr (tc_name toolCall) ]} ]}.

(** An assistant reply with one well-formed and one nameless tool call. *)
Definition sample_reply : ResponseMessage :=
  {| rm_role := Some "assistant";
     rm_content := Some "Looking it up.";
     rm_tool_calls :=
       Some [ {| rtc_function := Some {| fn_name := Some "lookup";
                                         fn_arguments := Some "{}" |};
                 rtc_id := Some "call_1"; rtc_index := None |};
              {| rtc_function := Some {| fn_name := None;
                                         fn_arguments := Some "{" |};
                 rtc_id := Some "call_2"; rtc_index := None |} ];
     rm_function_call := None |}.

Definition sample_completion : ChatCompletion :=
  {| c_id := Some "chatcmpl-2";
     c_choices := [ {| rc_message := Some sample_reply;
                       rc_finish_reason := Some (VStr "tool_calls");
                       rc_logprobs := None |} ];
     c_usage := Some {| prompt_tokens := 12; completion_tokens := 0;
                        total_tokens := 12 |};
     c_system_fingerprint := None;
     c_raw := VNull |}.

(** A text delta that states no role. *)
Definition data_more (s : string) : ChatCompletionChunk :=
  {| cc_id := Some "chatcmpl-1";
     cc_choices :=
       [ {| ch_index := Some 0;
            ch_delta := Some {| d_role := None;
                                d_content := Some (ContentText s);
                                d_function_call := None; d_tool_calls := None;
                                d_name := None; d_tool_call_id := None |};
            ch_finish_reason := None; ch_logprobs := None |} ];
     cc_usage := None; cc_system_fingerprint := None; cc_raw := VNull |}.

(** A content delta whose choice carries no index, and a tool call delta
    whose choice carries index 0 (the tool call piece carries index 0
    too). *)
Definition data_default_content (s : string) : ChatCompletionChunk :=
  {| cc_id := Some "chatcmpl-1";
     cc_choices :=
       [ {| ch_index := None;
            ch_delta := Some {| d_role := Some "assistant";
                                d_content := Some (ContentText s);
                                d_function_call := None; d_tool_calls := None;
                                d_name := None; d_tool_call_id := None |};
            ch_finish_reason := None; ch_logprobs := None |} ];
     cc_usage := None; cc_system_fingerprint := None; cc_raw := VNull |}.

Definition data_tool_call : ChatCompletionChunk :=
  {| cc_id := Some "chatcmpl-1";
     cc_choices :=
       [ {| ch_index := Some 0;
            ch_delta :=
              Some {| d_role := None; d_content := None;
                      d_function_call := None;
                      d_tool_calls :=
                        Some [ {| rtc_function :=
                                    Some {| fn_name := Some "lookup";
                                            fn_arguments := Some "{" |};
                                  rtc_id := Some "call_1";
                                  rtc_index := Some 0 |} ];
                      d_name := None; d_tool_call_id := None |};
            ch_finish_reason := None; ch_logprobs := None |} ];
     cc_usage := None; cc_system_fingerprint := None; cc_raw := VNull |}.

(** An environment without variables, and fields that give only a key. *)
Definition no_environment (name : string) : option string := None.

Definition fields_with_key (key : string) : ChatOpenAIFields :=
  {| f_apiKey := Some key; f_openAIApiKey := None;
     f_azureOpenAIApiKey := None; f_azureADTokenProvider := false;
     f_azureOpenAIApiInstanceName := None;
     f_azureOpenAIApiDeploymentName := None;
     f_azureOpenAIApiVersion := None; f_azureOpenAIBasePath := None;
     f_streaming := None; f_streamUsage := None; f_modelKwargs := None |}.

(** An environment that holds only [OPENAI_API_KEY]. *)
Definition key_environment (name : string) : option string :=
  if String.eqb name "OPENAI_API_KEY" then Some "sk-env" else None.

(* ===================================================================== *)
(** * Part II: properties                                                 *)
(* ===================================================================== *)

(** ** Strings and contents *)

Lemma string_app_cons (a : Ascii.ascii) (s t : string) :
  String a s +:+ t = String a (s +:+ t).
Proof. reflexivity. Qed.

Lemma string_app_assoc (s t u : string) : (s +:+ t) +:+ u = s +:+ (t +:+ u).
Proof. induction s as [|a s IH]; [done | by rewrite !string_app_cons, IH]. Qed.

Lemma eqb_empty_app (s t : string) :
  String.eqb s "" = false → String.eqb (s +:+ t) "" = false.
Proof. destruct s; [discriminate | by rewrite string_app_cons]. Qed.

Lemma spec_mergeContent_None_r a : spec_mergeContent a None = a.
Proof. by destruct a. Qed.

(** Regrouping three content merges changes the result exactly when two
    neighbouring texts meet a part list. *)
Lemma spec_mergeContent_assoc_iff a b c :
  spec_mergeContent (spec_mergeContent a b) c =
    spec_mergeContent a (spec_mergeContent b c)
  ↔ content_clash a b c = false.
Proof.
  destruct a as [[s|[|p l]]|], b as [[t|[|q m]]|], c as [[u|[|r n]]|];
    unfold content_clash; simpl;
    try (destruct (String.eqb s "") eqn:Hs);
    try (destruct (String.eqb t "") eqn:Ht);
    try (destruct (String.eqb u "") eqn:Hu);
    simpl;
    rewrite ?Hs, ?Ht, ?Hu; simpl;
    rewrite ?(eqb_empty_app _ _ Hs), ?(eqb_empty_app _ _ Ht); simpl;
    rewrite ?Hs, ?Ht, ?Hu; simpl;
    rewrite ?string_app_assoc, <- ?app_assoc; simpl;
    try (split; [done | discriminate || done]);
    try (split; [discriminate | discriminate]).
  - split; [|discriminate]. intros H.
    apply (f_equal (λ o, length (from_option as_parts [] o))) in H.
    simpl in H. lia.
  - split; [|discriminate]. intros [= Hl].
    apply app_inv_head in Hl. discriminate.
Qed.

(** ** Metadata values *)

Lemma vsize_lookup (m : gmap string Value) k v :
  m !! k = Some v → (vsize v < vsize (VMap m))%nat.
Proof.
  simpl. revert k v.
  induction m as [|i x m Hi Hfold IH] using map_first_key_ind; intros k v Hk.
  - by rewrite lookup_empty in Hk.
  - rewrite map_fold_insert_first_key by done.
    destruct (decide (i = k)) as [->|Hne].
    + rewrite lookup_insert_eq in Hk. injection Hk as ->. lia.
    + rewrite lookup_insert_ne in Hk by done. apply IH in Hk. lia.
Qed.

(** Induction over values that descends through map entries. *)
Lemma Value_map_ind (P : Value → Prop) :
  (∀ v, (∀ m k x, v = VMap m → m !! k = Some x → P x) → P v) →
  ∀ v, P v.
Proof.
  intros step v.
  remember (vsize v) as n eqn:Hn. revert v Hn.
  induction n as [n IH] using lt_wf_ind; intros v ->.
  apply step. intros m k x -> Hk.
  eapply IH; [by eapply vsize_lookup | done].
Qed.

Lemma map_fold_orb_false {A} (f : string → A → bool) (m : gmap string A) :
  map_fold (λ k v acc, acc || f k v) false m = false ↔
  ∀ k v, m !! k = Some v → f k v = false.
Proof.
  induction m as [|i x m Hi Hfold IH] using map_first_key_ind.
  - rewrite map_fold_empty. split; [|done].
    intros _ k v Hk. by rewrite lookup_empty in Hk.
  - rewrite map_fold_insert_first_key by done.
    rewrite orb_false_iff, IH. split.
    + intros [Hm Hx] k v Hk.
      destruct (decide (i = k)) as [->|Hne].
      * rewrite lookup_insert_eq in Hk. by injection Hk as <-.
      * rewrite lookup_insert_ne in Hk by done. eauto.
    + intros H. split.
      * intros k v Hk. apply H. rewrite lookup_insert_ne; [done|].
        intros ->. congruence.
      * apply H. by rewrite lookup_insert_eq.
Qed.

Lemma mergeValue_assoc a b c :
  sandwiched a b c = false →
  mergeValue (mergeValue a b) c = mergeValue a (mergeValue b c).
Proof.
  revert b c. induction a as [a IH] using Value_map_ind. intros b c Hs.
  destruct a as [| | | |la|ma], b as [| | | |lb|mb], c as [| | | |lc|mc];
    simpl in *; try done; try by rewrite app_assoc.
  f_equal. apply map_eq. intros k.
  rewrite map_fold_orb_false in Hs.
  rewrite !lookup_union_with.
  destruct (ma !! k) as [va|] eqn:Ha, (mb !! k) as [vb|] eqn:Hb,
    (mc !! k) as [vc|] eqn:Hc; simpl; try done.
  f_equal. eapply IH; [done | done |].
  specialize (Hs k va Ha). by rewrite Hb, Hc in Hs.
Qed.

Lemma spec_mergeDicts_assoc a b c :
  dict_sandwiched a b c = false →
  spec_mergeDicts (spec_mergeDicts a b) c = spec_mergeDicts a (spec_mergeDicts b c).
Proof.
  intros Hs. apply mergeValue_assoc in Hs. by injection Hs.
Qed.

Lemma spec_mergeDicts_empty_r a : spec_mergeDicts a ∅ = a.
Proof. unfold spec_mergeDicts. apply (right_id ∅ _). Qed.

Lemma spec_mergeDicts_empty_l a : spec_mergeDicts ∅ a = a.
Proof. unfold spec_mergeDicts. apply (left_id ∅ _). Qed.

Lemma spec_mergeStatus_assoc a b c :
  spec_mergeStatus (spec_mergeStatus a b) c =
  spec_mergeStatus a (spec_mergeStatus b c).
Proof. by destruct c, b. Qed.

(** The free-form value rule regroups on optional values too. *)
Lemma mergeObjValue_assoc a b c :
  match a, b, c with
  | Some x, Some y, Some z => sandwiched x y z
  | _, _, _ => false
  end = false →
  mergeObjValue (mergeObjValue a b) c = mergeObjValue a (mergeObjValue b c).
Proof.
  destruct a as [x|], b as [y|], c as [z|]; simpl; try done.
  intros Hs. f_equal. by apply mergeValue_assoc.
Qed.

(** ** The tool message chunk merge, for any helpers *)

Section ConcatFacts.

Variable base : BaseHelpers.

Lemma chunk_eq_fields (x y : Tool.ToolMessageChunk) :
  Tool.content x = Tool.content y →
  Tool.name x = Tool.name y →
  Tool.additional_kwargs x = Tool.additional_kwargs y →
  Tool.response_metadata x = Tool.response_metadata y →
  Tool.artifact x = Tool.artifact y →
  Tool.tool_call_id x = Tool.tool_call_id y →
  Tool.id x = Tool.id y →
  Tool.status x = Tool.status y →
  x = y.
Proof. destruct x, y; simpl; congruence. Qed.

(** The two fields [concat] merges without a helper regroup freely. *)
Lemma concat_own_fields_assoc a b c :
  let l := Tool.concat base (Tool.concat base a b) c in
  let r := Tool.concat base a (Tool.concat base b c) in
  Tool.tool_call_id l = Tool.tool_call_id r ∧ Tool.id l = Tool.id r.
Proof. simpl. split; [done|]. by destruct (Tool.id a), (Tool.id b). Qed.

(** [concat] regroups wherever the helpers regroup on the fields. *)
Lemma concat_assoc_of_helpers a b c :
  (let f := mergeContent base in
   f (f (Tool.content a) (Tool.content b)) (Tool.content c) =
   f (Tool.content a) (f (Tool.content b) (Tool.content c))) →
  (let f := _mergeDicts base in
   f (f (Tool.additional_kwargs a) (Tool.additional_kwargs b)) (Tool.additional_kwargs c) =
   f (Tool.additional_kwargs a) (f (Tool.additional_kwargs b) (Tool.additional_kwargs c))) →
  (let f := _mergeDicts base in
   f (f (Tool.response_metadata a) (Tool.response_metadata b)) (Tool.response_metadata c) =
   f (Tool.response_metadata a) (f (Tool.response_metadata b) (Tool.response_metadata c))) →
  (let f := _mergeObj base in
   f (f (Tool.artifact a) (Tool.artifact b)) (Tool.artifact c) =
   f (Tool.artifact a) (f (Tool.artifact b) (Tool.artifact c))) →
  (let f := _mergeStatus base in
   f (f (Tool.status a) (Tool.status b)) (Tool.status c) =
   f (Tool.status a) (f (Tool.status b) (Tool.status c))) →
  Tool.concat base (Tool.concat base a b) c = Tool.concat base a (Tool.concat base b c).
Proof.
  simpl. intros Hcontent Hkw Hmeta Hart Hst.
  apply chunk_eq_fields; simpl; try done.
  by destruct (Tool.id a), (Tool.id b).
Qed.

(** The id of a fold is the first id defined, in arrival order. *)
Lemma concat_fold_id a cs :
  Tool.id (foldl (Tool.concat base) a cs) = head (omap Tool.id (a :: cs)).
Proof.
  revert a. induction cs as [|c cs IH]; intros a.
  - simpl. by destruct (Tool.id a).
  - cbn [foldl]. rewrite IH. simpl.
    destruct (Tool.id a) as [i|]; [done|].
    by destruct (Tool.id c).
Qed.

(** C7: the id of merged chunks is the first non-null id in arrival order;
    once the accumulated chunk carries an id, merging any further chunks
    keeps that id, whatever ids they carry. *)
Theorem concat_id_first a cs :
  Tool.id (foldl (Tool.concat base) a cs) = head (omap Tool.id (a :: cs)) ∧
  ∀ i, Tool.id a = Some i → Tool.id (foldl (Tool.concat base) a cs) = Some i.
Proof.
  split; [apply concat_fold_id|].
  intros i Ha. rewrite concat_fold_id. simpl. by rewrite Ha.
Qed.

(** C5 (amended): provided the imported helpers return a field of [a]
    unchanged beside an absent one, the all-absent chunk merged on the
    right returns [a] with its [name] dropped, since [concat] builds the
    result without a [name]; merged on the left it returns [a] with its
    [name] and its [tool_call_id] dropped, since [concat] takes
    [tool_call_id] from the left operand.  So the all-absent chunk is a
    right identity exactly for chunks without a [name], and a left
    identity exactly for chunks with neither a [tool_call_id] nor a
    [name]. *)
Theorem concat_empty a :
  Tool.neutral_on base a →
  Tool.concat base a Tool.empty = with_name None a ∧
  Tool.concat base Tool.empty a = with_name None (with_tool_call_id None a) ∧
  (Tool.concat base a Tool.empty = a ↔ Tool.name a = None) ∧
  (Tool.concat base Tool.empty a = a ↔
   Tool.tool_call_id a = None ∧ Tool.name a = None).
Proof.
  intros ([Hc1 Hc2] & [Hk1 Hk2] & [Hm1 Hm2] & [Ha1 Ha2] & [Hs1 Hs2]).
  assert (Tool.concat base a Tool.empty = with_name None a) as Hright.
  { apply chunk_eq_fields; simpl; try done. by destruct (Tool.id a). }
  assert (Tool.concat base Tool.empty a =
          with_name None (with_tool_call_id None a)) as Hleft
    by (by apply chunk_eq_fields).
  split; [done|]. split; [done|]. rewrite Hright, Hleft. split; split.
  - intros Heq. apply (f_equal Tool.name) in Heq. by simpl in Heq.
  - intros Hname. apply chunk_eq_fields; simpl; done.
  - intros Heq. split.
    + apply (f_equal Tool.tool_call_id) in Heq. by simpl in Heq.
    + apply (f_equal Tool.name) in Heq. by simpl in Heq.
  - intros [Htid Hname]. apply chunk_eq_fields; simpl; done.
Qed.

End ConcatFacts.

(** ** The tool message chunk merge with the helpers of the spec *)

Section SpecConcatFacts.

Variable mo : option Value → option Value → option Value.

(** The helpers of the spec leave a value alone beside an absent one. *)
Lemma spec_helpers_neutral a :
  mo (Tool.artifact a) None = Tool.artifact a →
  mo None (Tool.artifact a) = Tool.artifact a →
  Tool.neutral_on (spec_helpers mo) a.
Proof.
  intros Hr Hl. unfold Tool.neutral_on. simpl.
  rewrite spec_mergeContent_None_r, spec_mergeDicts_empty_r, !spec_mergeDicts_empty_l,
    spec_mergeDicts_empty_r.
  repeat split; try done.
  unfold spec_mergeStatus. by destruct (Tool.status a).
Qed.

(** C1 (amended): with the helpers as the spec describes them, merging
    three tool message chunks is associative, field by field, whenever the
    artifact merge regroups on their artifacts, the contents are not two
    neighbouring non-empty texts beside a non-empty part list, and no key
    path of the metadata maps holds two maps (or two sequences) in the
    first and third chunk around a value of another kind in the second. *)
Theorem concat_assoc a b c :
  mo (mo (Tool.artifact a) (Tool.artifact b)) (Tool.artifact c) =
    mo (Tool.artifact a) (mo (Tool.artifact b) (Tool.artifact c)) →
  content_clash (Tool.content a) (Tool.content b) (Tool.content c) = false →
  dict_sandwiched (Tool.additional_kwargs a) (Tool.additional_kwargs b)
    (Tool.additional_kwargs c) = false →
  dict_sandwiched (Tool.response_metadata a) (Tool.response_metadata b)
    (Tool.response_metadata c) = false →
  Tool.concat (spec_helpers mo) (Tool.concat (spec_helpers mo) a b) c =
  Tool.concat (spec_helpers mo) a (Tool.concat (spec_helpers mo) b c).
Proof.
  intros Hart Hcontent Hkw Hmeta.
  apply concat_assoc_of_helpers; simpl.
  - by apply spec_mergeContent_assoc_iff.
  - by apply spec_mergeDicts_assoc.
  - by apply spec_mergeDicts_assoc.
  - done.
  - apply spec_mergeStatus_assoc.
Qed.

(** The condition on the contents is necessary: a content clash always
    makes the two groupings differ. *)
Lemma concat_clash_not_assoc a b c :
  content_clash (Tool.content a) (Tool.content b) (Tool.content c) = true →
  Tool.concat (spec_helpers mo) (Tool.concat (spec_helpers mo) a b) c ≠
  Tool.concat (spec_helpers mo) a (Tool.concat (spec_helpers mo) b c).
Proof.
  intros Hclash Heq. apply (f_equal Tool.content) in Heq. simpl in Heq.
  apply spec_mergeContent_assoc_iff in Heq. congruence.
Qed.

(** C6: with [_mergeStatus] as the spec describes it, in the merge of two
    chunks the later defined status wins: when both carry a status the
    later one is the result, when the later one carries none the earlier
    status survives, and a defined status never becomes absent. *)
Theorem concat_status a b :
  (∀ s t, Tool.status a = Some s → Tool.status b = Some t →
     Tool.status (Tool.concat (spec_helpers mo) a b) = Some t) ∧
  (Tool.status b = None →
     Tool.status (Tool.concat (spec_helpers mo) a b) = Tool.status a) ∧
  (∀ s, Tool.status a = Some s →
     Tool.status (Tool.concat (spec_helpers mo) a b) ≠ None).
Proof.
  simpl. unfold spec_mergeStatus. repeat split.
  - by intros s t _ ->.
  - by intros ->.
  - intros s Ha. rewrite Ha. by destruct (Tool.status b).
Qed.

(** Over a fold the status is the last one defined, in arrival order. *)
Lemma concat_status_fold a cs :
  Tool.status (foldl (Tool.concat (spec_helpers mo)) a cs) =
  last (omap Tool.status (a :: cs)).
Proof.
  revert a. induction cs as [|c cs IH]; intros a.
  - simpl. by destruct (Tool.status a).
  - cbn [foldl]. rewrite IH.
    change (omap ?f (?x :: ?l)) with
      (match f x with Some y => y :: omap f l | None => omap f l end).
    change (omap ?f (?x :: ?l)) with
      (match f x with Some y => y :: omap f l | None => omap f l end).
    cbv beta. simpl Tool.status. unfold spec_mergeStatus.
    destruct (Tool.status c) as [t|], (Tool.status a) as [s|]; done.
Qed.

End SpecConcatFacts.

(** C1, counterexample: two texts and a part list, and a map, a string and
    a map under one key, each merged in the two groupings. *)
Lemma concat_not_associative :
  Tool.content
    (Tool.concat sample_helpers (Tool.concat sample_helpers frag_J frag_adore) frag_image)
    = Some (ContentParts [text_part "Jadore"; image_part]) ∧
  Tool.content
    (Tool.concat sample_helpers frag_J (Tool.concat sample_helpers frag_adore frag_image))
    = Some (ContentParts [text_part "J"; text_part "adore"; image_part]) ∧
  Tool.additional_kwargs
    (Tool.concat sample_helpers (Tool.concat sample_helpers frag_kw_in frag_kw_str) frag_kw_out)
    = {[ "usage" := VMap {[ "out" := VNum 5 ]} ]} ∧
  Tool.additional_kwargs
    (Tool.concat sample_helpers frag_kw_in (Tool.concat sample_helpers frag_kw_str frag_kw_out))
    = {[ "usage" := VMap {[ "in" := VNum 3; "out" := VNum 5 ]} ]} ∧
  Tool.concat sample_helpers (Tool.concat sample_helpers frag_J frag_adore) frag_image ≠
  Tool.concat sample_helpers frag_J (Tool.concat sample_helpers frag_adore frag_image).
Proof.
  split; [by vm_compute|]. split; [by vm_compute|].
  split; [by vm_compute|]. split; [by vm_compute|].
  intros Heq. apply (f_equal Tool.content) in Heq. vm_compute in Heq.
  discriminate.
Qed.

(** C1, witness: three text chunks. *)
Lemma concat_assoc_witness :
  Tool.concat sample_helpers (Tool.concat sample_helpers frag_J frag_adore) frag_la =
  Tool.concat sample_helpers frag_J (Tool.concat sample_helpers frag_adore frag_la).
Proof.
  apply (concat_assoc mergeObjValue frag_J frag_adore frag_la); reflexivity.
Defined.

(** Two texts and a part list clash, so the two groupings differ. *)
Lemma concat_clash_not_assoc_witness :
  Tool.concat sample_helpers (Tool.concat sample_helpers frag_J frag_adore) frag_image ≠
  Tool.concat sample_helpers frag_J (Tool.concat sample_helpers frag_adore frag_image).
Proof.
  apply (concat_clash_not_assoc mergeObjValue frag_J frag_adore frag_image).
  reflexivity.
Defined.

(** C5, counterexample: the all-absent chunk merged on the right of a chunk
    that has a [name] loses the name; merged on the left of a chunk that
    has a [tool_call_id] it loses the [tool_call_id], with or without a
    name. *)
Lemma empty_not_identity :
  Tool.name frag_named = Some "lookup" ∧
  Tool.name (Tool.concat sample_helpers frag_named Tool.empty) = None ∧
  Tool.concat sample_helpers frag_named Tool.empty ≠ frag_named ∧
  Tool.tool_call_id frag_adore = Some "call_1" ∧
  Tool.tool_call_id (Tool.concat sample_helpers Tool.empty frag_adore) = None ∧
  Tool.concat sample_helpers Tool.empty frag_adore ≠ frag_adore ∧
  Tool.concat sample_helpers Tool.empty frag_named ≠ frag_named.
Proof.
  split; [done|]. split; [done|]. split.
  { intros Heq. apply (f_equal Tool.name) in Heq. discriminate. }
  split; [done|]. split; [done|]. split.
  - intros Heq. apply (f_equal Tool.tool_call_id) in Heq. discriminate.
  - intros Heq. apply (f_equal Tool.name) in Heq. discriminate.
Qed.

(** C5, witness: a chunk with a name and a [tool_call_id]. *)
Lemma concat_empty_witness :
  Tool.concat sample_helpers frag_named Tool.empty = with_name None frag_named ∧
  Tool.concat sample_helpers Tool.empty frag_named =
    with_name None (with_tool_call_id None frag_named) ∧
  (Tool.concat sample_helpers frag_named Tool.empty = frag_named ↔
   Tool.name frag_named = None) ∧
  (Tool.concat sample_helpers Tool.empty frag_named = frag_named ↔
   Tool.tool_call_id frag_named = None ∧ Tool.name frag_named = None).
Proof.
  apply (concat_empty sample_helpers frag_named).
  repeat split; reflexivity.
Defined.

(** Three text fragments merged in order: the texts concatenate, the first
    id and the last defined status are kept. *)
Example content_concatenation :
  Tool.content
    (foldl (Tool.concat sample_helpers) frag_J [frag_adore; frag_la]) =
  Some (ContentText "Jadore la") ∧
  Tool.id (foldl (Tool.concat sample_helpers) frag_J [frag_adore; frag_la]) =
  Some "msg_7" ∧
  Tool.status (foldl (Tool.concat sample_helpers) frag_J [frag_adore; frag_la]) =
  Some error.
Proof. repeat split. Qed.

(** ** The context-propagating generators *)

Section WrapperFacts.

Context {Ctx T O : Type}.
Variable next : O → Comp Ctx (IteratorResult T * O).
Variable asyncIterator : O → IteratorRef O.

(** Whatever the callback does to the ambient store, [runWithConfig] leaves
    the store as it found it. *)
Lemma runWithConfig_ambient {A} (context : option Ctx) (f : Comp Ctx A) w :
  ambient (runWithConfig context f w).2 = ambient w.
Proof.
  unfold runWithConfig, bind, getStore, restore, ret.
  destruct context as [c|]; simpl; by destruct (f _).
Qed.

(** While the callback runs, the ambient store holds the given context. *)
Lemma runWithConfig_installed (c : Ctx) w :
  (runWithConfig (Some c) getStore w).1 = Some c.
Proof. reflexivity. Qed.

Lemma sync_pull_ambient context g w :
  ambient (sync_pull next context g w).2 = ambient w.
Proof.
  unfold sync_pull. destruct (sg_state g); [|done].
  unfold bind.
  pose proof (runWithConfig_ambient context (next (sg_iter g)) w) as H.
  destruct (runWithConfig _ _ w) as [[r o'] w']. simpl in H.
  by destruct r.
Qed.

Lemma async_pull_ambient context g w :
  ambient (async_pull next asyncIterator context g w).2 = ambient w.
Proof.
  unfold async_pull. destruct (ag_state g); [|done].
  unfold bind.
  pose proof (runWithConfig_ambient context (next (ag_iter g)) w) as H.
  destruct (runWithConfig _ _ w) as [[r o'] w']. simpl in H.
  by destruct r.
Qed.

Lemma pull_n_S {S} (pull : S → Comp Ctx (IteratorResult T * S)) n s w :
  pull_n pull (Datatypes.S n) s w =
  let '(r, s', w') := pull s w in
  let '(rs, s'', w'') := pull_n pull n s' w' in
  (r :: rs, s'', w'').
Proof.
  simpl. unfold bind. destruct (pull s w) as [[r s'] w'].
  by destruct (pull_n pull n s' w') as [[rs s''] w''].
Qed.

Lemma pull_n_ambient {S} (pull : S → Comp Ctx (IteratorResult T * S)) :
  (∀ s w, ambient (pull s w).2 = ambient w) →
  ∀ n s w, ambient (pull_n pull n s w).2 = ambient w.
Proof.
  intros Hpull n. induction n as [|n IH]; intros s w; [done|].
  rewrite pull_n_S. specialize (Hpull s w).
  destruct (pull s w) as [[r s'] w']. simpl in Hpull.
  specialize (IH s' w'). destruct (pull_n pull n s' w') as [[rs s''] w''].
  simpl in *. congruence.
Qed.

Lemma pull_n_length {S} (pull : S → Comp Ctx (IteratorResult T * S)) n s w :
  length (pull_n pull n s w).1.1 = n.
Proof.
  revert s w. induction n as [|n IH]; intros s w; [done|].
  rewrite pull_n_S. destruct (pull s w) as [[r s'] w'].
  specialize (IH s' w'). destruct (pull_n pull n s' w') as [[rs s''] w''].
  simpl in *. by rewrite IH.
Qed.

Lemma sync_pull_completed context g w :
  sg_state g = Completed → sync_pull next context g w = (Done, g, w).
Proof. unfold sync_pull. by intros ->. Qed.

Lemma async_pull_completed context g w :
  ag_state g = Completed →
  async_pull next asyncIterator context g w = (Done, g, w).
Proof. unfold async_pull. by intros ->. Qed.

(** A generator whose pull is a no-op stays as it is, world included. *)
Lemma pull_n_idle {S} (pull : S → Comp Ctx (IteratorResult T * S)) s :
  (∀ w, pull s w = (Done, s, w)) →
  ∀ n w, pull_n pull n s w = (replicate n Done, s, w).
Proof.
  intros Hidle n. induction n as [|n IH]; intros w; [done|].
  rewrite pull_n_S. by rewrite Hidle, IH.
Qed.

Lemma sync_pull_suspended context g w :
  sg_state g = Suspended →
  sync_pull next context g w =
  let '(r, iter', w') := pull_in_context next context (sg_iter g) w in
  (r, {| sg_state := state_after r; sg_iter := iter' |}, w').
Proof.
  intros Hg. unfold sync_pull, pull_in_context, bind. rewrite Hg.
  destruct (runWithConfig _ _ w) as [[r o'] w']. by destruct r.
Qed.

Lemma async_pull_suspended context g w :
  ag_state g = Suspended →
  ∃ it, async_pull next asyncIterator context g w =
  let '(r, iter', w') := pull_in_context next context (ag_iter g) w in
  (r, {| ag_state := state_after r; ag_iter := iter'; ag_iterator := Some it |}, w').
Proof.
  intros Hg. unfold async_pull, pull_in_context, bind. rewrite Hg.
  eexists. destruct (runWithConfig _ _ w) as [[r o'] w']. by destruct r.
Qed.

(** A pull that does not answer with a value completes the generator. *)
Lemma sync_pull_state context g w :
  let '(r, g', _) := sync_pull next context g w in
  is_Yield r = false → sg_state g' = Completed.
Proof.
  destruct (sg_state g) eqn:Hg.
  - rewrite (sync_pull_suspended context g w Hg).
    destruct (pull_in_context _ _ _ w) as [[r o'] w']. simpl.
    unfold state_after. by intros ->.
  - by rewrite (sync_pull_completed context g w Hg).
Qed.

Lemma async_pull_state context g w :
  let '(r, g', _) := async_pull next asyncIterator context g w in
  is_Yield r = false → ag_state g' = Completed.
Proof.
  destruct (ag_state g) eqn:Hg.
  - destruct (async_pull_suspended context g w Hg) as [it ->].
    destruct (pull_in_context _ _ _ w) as [[r o'] w']. simpl.
    unfold state_after. by intros ->.
  - by rewrite (async_pull_completed context g w Hg).
Qed.

Lemma pull_n_completes {S} (pull : S → Comp Ctx (IteratorResult T * S))
    (completed : S → Prop) :
  (∀ s w, completed s → pull s w = (Done, s, w)) →
  (∀ s w, let '(r, s', _) := pull s w in is_Yield r = false → completed s') →
  ∀ n s w, let '(rs, s', _) := pull_n pull n s w in
    (∃ r, r ∈ rs ∧ is_Yield r = false) → completed s'.
Proof.
  intros Hidle Hstep n. induction n as [|n IH]; intros s w.
  - simpl. intros (r & Hr & _). by apply elem_of_nil in Hr.
  - rewrite pull_n_S. specialize (Hstep s w).
    destruct (pull s w) as [[r s'] w'].
    specialize (IH s' w').
    destruct (pull_n pull n s' w') as [[rs s''] w''] eqn:Hn.
    intros (r0 & Hr0 & Hy). apply elem_of_cons in Hr0 as [->|Hin].
    + specialize (Hstep Hy).
      rewrite (pull_n_idle pull s') in Hn by (intros; by apply Hidle).
      by injection Hn as _ <- _.
    + apply IH. eauto.
Qed.

(** C3: after any number of pulls of either wrapper the ambient context is
    the one that was ambient before the first pull, whatever the underlying
    step does to it meanwhile; and once a pull has reported completion (or
    a failure), further pulls answer [Done] and leave the world untouched:
    no context is installed any more and the underlying step is not run. *)
Theorem context_restored (context : option Ctx) (iter : O) (n : nat) (w : World Ctx) :
  (let '(rs, g, w') :=
     pull_n (sync_pull next context) n (consumeIteratorInContext iter) w in
   ambient w' = ambient w ∧
   ((∃ r, r ∈ rs ∧ is_Yield r = false) →
    ∀ m, pull_n (sync_pull next context) m g w' = (replicate m Done, g, w'))) ∧
  (let '(rs, g, w') :=
     pull_n (async_pull next asyncIterator context) n
       (consumeAsyncIterableInContext iter) w in
   ambient w' = ambient w ∧
   ((∃ r, r ∈ rs ∧ is_Yield r = false) →
    ∀ m, pull_n (async_pull next asyncIterator context) m g w' =
         (replicate m Done, g, w'))).
Proof.
  split.
  - pose proof (pull_n_ambient _ (sync_pull_ambient context) n
                  (consumeIteratorInContext iter) w) as Hamb.
    pose proof (pull_n_completes (sync_pull next context)
                  (λ g, sg_state g = Completed)
                  (λ s w0, sync_pull_completed context s w0)
                  (sync_pull_state context) n (consumeIteratorInContext iter) w)
      as Hdone.
    destruct (pull_n _ n _ w) as [[rs g] w']. split; [done|].
    intros Hr m. apply pull_n_idle. intros w0.
    by apply sync_pull_completed, Hdone.
  - pose proof (pull_n_ambient _ (async_pull_ambient context) n
                  (consumeAsyncIterableInContext iter) w) as Hamb.
    pose proof (pull_n_completes (async_pull next asyncIterator context)
                  (λ g, ag_state g = Completed)
                  (λ s w0, async_pull_completed context s w0)
                  (async_pull_state context) n
                  (consumeAsyncIterableInContext iter) w) as Hdone.
    destruct (pull_n _ n _ w) as [[rs g] w']. split; [done|].
    intros Hr m. apply pull_n_idle. intros w0.
    by apply async_pull_completed, Hdone.
Qed.

(** A wrapper whose pull relays the underlying pull on the object [this s]
    answers what the underlying sequence answers, up to completion. *)
Lemma relay_pull_n_seal {S} (pull : S → Comp Ctx (IteratorResult T * S))
    (under : O → Comp Ctx (IteratorResult T * O))
    (this : S → O) (suspended : S → Prop) :
  (∀ s w, suspended s →
     let '(r, s', w') := pull s w in
     let '(r0, o', w0) := under (this s) w in
     r = r0 ∧ w' = w0 ∧ this s' = o' ∧
     (is_Yield r = true → suspended s') ∧
     (is_Yield r = false → ∀ w1, pull s' w1 = (Done, s', w1))) →
  ∀ n s w, suspended s →
    (pull_n pull n s w).1.1 = seal (pull_n under n (this s) w).1.1.
Proof.
  intros Hrelay n. induction n as [|n IH]; intros s w Hs; [done|].
  rewrite !pull_n_S. specialize (Hrelay s w Hs).
  destruct (pull s w) as [[r s'] w'].
  destruct (under (this s) w) as [[r0 o'] w0].
  destruct Hrelay as (<- & <- & <- & Hy & Hn).
  pose proof (pull_n_length under n (this s') w') as Hlen.
  destruct (is_Yield r) eqn:Hr.
  - specialize (IH s' w' (Hy eq_refl)).
    destruct (pull_n pull n s' w') as [[rs s''] w''].
    destruct (pull_n under n (this s') w') as [[rs' o''] w3].
    simpl in *. destruct r; try done. by rewrite IH.
  - rewrite (pull_n_idle pull s' (Hn eq_refl)).
    destruct (pull_n under n (this s') w') as [[rs' o''] w3].
    simpl in *. destruct r; try done; by rewrite Hlen.
Qed.

(** The synchronous wrapper is value-transparent: pull by pull it answers
    what the underlying [next] answers with the context installed, and it
    completes when the underlying sequence does. *)
Theorem sync_wrapper_transparent context iter n w :
  (pull_n (sync_pull next context) n (consumeIteratorInContext iter) w).1.1 =
  seal (pull_n (pull_in_context next context) n iter w).1.1.
Proof.
  apply (relay_pull_n_seal (sync_pull next context) (pull_in_context next context)
           sg_iter (λ g, sg_state g = Suspended)); [|done].
  intros g w0 Hg. rewrite (sync_pull_suspended context g w0 Hg).
  destruct (pull_in_context next context (sg_iter g) w0) as [[r o'] w'].
  repeat split; unfold state_after.
  - by intros ->.
  - intros Hr w1. apply sync_pull_completed. simpl. by rewrite Hr.
Qed.

(** The asynchronous wrapper always drives [next] on the iterable [iter],
    the object [next] is bound to, not on the iterator it obtained. *)
Lemma async_wrapper_drives_iter context iter n w :
  (pull_n (async_pull next asyncIterator context) n
     (consumeAsyncIterableInContext iter) w).1.1 =
  seal (pull_n (pull_in_context next context) n iter w).1.1.
Proof.
  apply (relay_pull_n_seal (async_pull next asyncIterator context)
           (pull_in_context next context) ag_iter (λ g, ag_state g = Suspended));
    [|done].
  intros g w0 Hg.
  destruct (async_pull_suspended context g w0 Hg) as [it ->].
  destruct (pull_in_context next context (ag_iter g) w0) as [[r o'] w'].
  repeat split; unfold state_after.
  - by intros ->.
  - intros Hr w1. apply async_pull_completed. simpl. by rewrite Hr.
Qed.

(** For an iterable that is its own iterator the asynchronous wrapper is
    value-transparent. *)
Theorem async_wrapper_transparent_self context iter n w :
  asyncIterator iter = ItSelf →
  (pull_n (async_pull next asyncIterator context) n
     (consumeAsyncIterableInContext iter) w).1.1 =
  seal (pull_n (pull_in_context next context) n
          (iterator_object asyncIterator iter) w).1.1.
Proof.
  intros Hself. unfold iterator_object. rewrite Hself.
  apply async_wrapper_drives_iter.
Qed.

End WrapperFacts.

(** C4, the asynchronous wrapper at an iterable whose iterator is another
    object: consumed directly the sequence yields 0, 1, 2 and completes;
    wrapped, the first pull already reports completion, because [next] runs
    on the iterable, which has no counter. *)
Lemma async_wrapper_loses_values :
  (pull_n (async_pull counter_next counter_asyncIterator None) 4
     (consumeAsyncIterableInContext counter_iterable) (quiet_world (Ctx := unit))).1.1
    = [Done; Done; Done; Done] ∧
  (pull_n (pull_in_context counter_next None) 4
     (iterator_object counter_asyncIterator counter_iterable)
     (quiet_world (Ctx := unit))).1.1
    = [Yield 0; Yield 1; Yield 2; Done].
Proof. split; vm_compute; reflexivity. Qed.

(** The same counter as a self-iterating object, wrapped. *)
Lemma async_wrapper_transparent_self_witness :
  (pull_n (async_pull counter_next self_asyncIterator None) 4
     (consumeAsyncIterableInContext {[ "i" := 0 ]}) (quiet_world (Ctx := unit))).1.1 =
  seal (pull_n (pull_in_context counter_next None) 4
          (iterator_object self_asyncIterator {[ "i" := 0 ]})
          (quiet_world (Ctx := unit))).1.1.
Proof.
  apply (async_wrapper_transparent_self counter_next self_asyncIterator None
           {[ "i" := 0 ]} 4 quiet_world).
  reflexivity.
Defined.

(** ** [defaultToolCallParser] *)

Section ParserFacts.

Variable JSON_parse : string → option Value.

Lemma parser_step_spec acc toolCall :
  parser_step JSON_parse acc toolCall =
  (acc.1 ++ option_list (valid_of JSON_parse toolCall),
   acc.2 ++ option_list (invalid_of JSON_parse toolCall)).
Proof.
  unfold parser_step, valid_of, invalid_of. destruct acc as [vs ivs].
  destruct (rtc_function toolCall) as [f|]; simpl.
  - destruct (parse_arguments JSON_parse f); simpl; by rewrite app_nil_r.
  - by rewrite !app_nil_r.
Qed.

Lemma parser_fold acc raws :
  foldl (parser_step JSON_parse) acc raws =
  (acc.1 ++ omap (valid_of JSON_parse) raws,
   acc.2 ++ omap (invalid_of JSON_parse) raws).
Proof.
  revert acc. induction raws as [|r raws IH]; intros [vs ivs]; simpl.
  - by rewrite !app_nil_r.
  - rewrite IH, parser_step_spec. simpl.
    destruct (valid_of JSON_parse r), (invalid_of JSON_parse r); simpl;
      by rewrite <- ?app_assoc.
Qed.

(** An entry with a function lands on exactly one side. *)
Lemma valid_invalid_exclusive r :
  (length (option_list (valid_of JSON_parse r)) +
   length (option_list (invalid_of JSON_parse r)) =
   if has_function r then 1 else 0)%nat.
Proof.
  unfold valid_of, invalid_of, has_function.
  destruct (rtc_function r) as [f|]; [|done].
  by destruct (parse_arguments JSON_parse f).
Qed.

(** What an entry on either side looks like. *)
Lemma valid_of_Some raw tc :
  valid_of JSON_parse raw = Some tc →
  ∃ f functionArgs,
    rtc_function raw = Some f ∧
    fn_arguments f ≫= JSON_parse = Some functionArgs ∧
    tc_name tc = default "" (fn_name f) ∧
    tc_args tc = (if truthy functionArgs then functionArgs else VMap ∅) ∧
    tc_id tc = rtc_id raw.
Proof.
  unfold valid_of, parse_arguments. intros H.
  destruct (rtc_function raw) as [f|]; [|done].
  destruct (fn_arguments f) as [text|] eqn:Hargs; [|done].
  destruct (JSON_parse text) as [v|] eqn:Hparse; [|done].
  injection H as <-. exists f, v. rewrite Hargs. simpl.
  repeat split; done.
Qed.

Lemma invalid_of_Some raw ic :
  invalid_of JSON_parse raw = Some ic →
  ∃ f,
    rtc_function raw = Some f ∧
    fn_arguments f ≫= JSON_parse = None ∧
    itc_name ic = fn_name f ∧
    itc_args ic = fn_arguments f ∧
    itc_id ic = rtc_id raw ∧
    itc_error ic = Some "Malformed args.".
Proof.
  unfold invalid_of, parse_arguments. intros H.
  destruct (rtc_function raw) as [f|]; [|done].
  exists f.
  destruct (fn_arguments f) as [text|] eqn:Hargs; simpl.
  - destruct (JSON_parse text) as [v|] eqn:Hparse; [done|].
    injection H as <-. simpl. by rewrite Hargs.
  - injection H as <-. simpl. by rewrite Hargs.
Qed.

(** C10: for every list of raw tool calls and every behaviour of
    [JSON.parse], the parser returns (the model is a total function: the
    only call that can throw sits inside [try]) the pair of the valid and
    the invalid calls, each in input order.  An entry without [function]
    contributes to neither list and every other entry to exactly one: when
    its arguments parse, a tool call with the name or the empty string, the
    parsed arguments or the empty map, and the id; when they do not parse,
    an invalid tool call with the raw name, the raw arguments string, the
    id and the error text "Malformed args.". *)
Theorem defaultToolCallParser_partition raws :
  defaultToolCallParser JSON_parse raws =
    (omap (valid_of JSON_parse) raws, omap (invalid_of JSON_parse) raws) ∧
  (length (defaultToolCallParser JSON_parse raws).1 +
   length (defaultToolCallParser JSON_parse raws).2 =
   length (filter (λ r, has_function r = true) raws))%nat ∧
  (∀ tc, tc ∈ (defaultToolCallParser JSON_parse raws).1 →
     ∃ raw f functionArgs,
       raw ∈ raws ∧ rtc_function raw = Some f ∧
       fn_arguments f ≫= JSON_parse = Some functionArgs ∧
       tc_name tc = default "" (fn_name f) ∧
       tc_args tc = (if truthy functionArgs then functionArgs else VMap ∅) ∧
       tc_id tc = rtc_id raw) ∧
  (∀ ic, ic ∈ (defaultToolCallParser JSON_parse raws).2 →
     ∃ raw f,
       raw ∈ raws ∧ rtc_function raw = Some f ∧
       fn_arguments f ≫= JSON_parse = None ∧
       itc_name ic = fn_name f ∧ itc_args ic = fn_arguments f ∧
       itc_id ic = rtc_id raw ∧ itc_error ic = Some "Malformed args.").
Proof.
  unfold defaultToolCallParser. rewrite parser_fold. simpl.
  split; [done|]. split; [|split].
  - induction raws as [|r raws IH]; [done|].
    pose proof (valid_invalid_exclusive r) as Hr.
    rewrite filter_cons. unfold omap in *. simpl.
    case_decide as Hf.
    + rewrite Hf in Hr.
      destruct (valid_of JSON_parse r), (invalid_of JSON_parse r);
        simpl in *; rewrite ?length_app; simpl; lia.
    + apply not_true_is_false in Hf. rewrite Hf in Hr.
      destruct (valid_of JSON_parse r), (invalid_of JSON_parse r);
        simpl in *; lia.
  - intros tc Htc. apply list_elem_of_omap in Htc as (raw & Hraw & Hv).
    destruct (valid_of_Some raw tc Hv) as (f & v & H). exists raw, f, v. tauto.
  - intros ic Hic. apply list_elem_of_omap in Hic as (raw & Hraw & Hi).
    destruct (invalid_of_Some raw ic Hi) as (f & H). exists raw, f. tauto.
Qed.

End ParserFacts.

(** ** The response stream *)

Lemma converted_chunk_no_usage delta data role raw :
  m_usage_metadata (_convertDeltaToMessageChunk delta data role raw) = None.
Proof.
  unfold _convertDeltaToMessageChunk.
  repeat case_match; reflexivity.
Qed.

(** The later non-null usage replaces the earlier one. *)
Lemma stream_step_usage cfg st data :
  st_usage (stream_step cfg st data) =
  match cc_usage data with Some u => Some u | None => st_usage st end.
Proof.
  unfold stream_step.
  destruct (head (cc_choices data)) as [choice|]; [|done].
  destruct (ch_delta choice) as [delta|]; [|done].
  by destruct (m_content _).
Qed.

Lemma stream_fold_usage cfg st datas :
  st_usage (foldl (stream_step cfg) st datas) =
  match last (omap cc_usage datas) with
  | Some u => Some u
  | None => st_usage st
  end.
Proof.
  revert st. induction datas as [|d datas IH]; intros st; [done|].
  cbn [foldl]. rewrite IH, stream_step_usage.
  change (omap cc_usage (d :: datas)) with
    (match cc_usage d with
     | Some u => u :: omap cc_usage datas
     | None => omap cc_usage datas
     end).
  destruct (cc_usage d) as [u|]; [|done].
  rewrite last_cons. by destruct (last (omap cc_usage datas)).
Qed.

Lemma stream_step_yielded cfg st data :
  ∃ new, st_yielded (stream_step cfg st data) = st_yielded st ++ new ∧
         Forall (λ c, carries_usage c = false) new.
Proof.
  unfold stream_step.
  destruct (head (cc_choices data)) as [choice|];
    [|exists []; split; [by rewrite app_nil_r | constructor]].
  destruct (ch_delta choice) as [delta|];
    [|exists []; split; [by rewrite app_nil_r | constructor]].
  destruct (m_content _) as [content|parts] eqn:Hc; simpl;
    [|exists []; split; [by rewrite app_nil_r | constructor]].
  eexists [_]. split; [done|]. repeat constructor.
  unfold carries_usage. simpl. by rewrite converted_chunk_no_usage.
Qed.

Lemma stream_fold_yielded cfg st datas :
  Forall (λ c, carries_usage c = false) (st_yielded st) →
  Forall (λ c, carries_usage c = false)
    (st_yielded (foldl (stream_step cfg) st datas)).
Proof.
  revert st. induction datas as [|d datas IH]; intros st Hst; [done|].
  cbn [foldl]. apply IH.
  destruct (stream_step_yielded cfg st d) as (new & -> & Hnew).
  by apply Forall_app.
Qed.

Lemma filter_carries_usage_nil (l : list ChatGenerationChunk) :
  Forall (λ c, carries_usage c = false) l →
  filter (λ c, carries_usage c = true) l = [].
Proof.
  induction 1 as [|c l Hc _ IH]; [done|].
  rewrite filter_cons, IH. case_decide; congruence.
Qed.

(** C8: across the response stream the later non-null usage replaces the
    earlier one; when some chunk of the stream carried usage, the chunks
    yielded are the per-delta chunks, none of which carries usage, followed
    by exactly one chunk that holds the input, output and total counters of
    the last usage observed; when none did, no yielded chunk carries
    usage. *)
Theorem stream_usage_chunk cfg datas :
  let out := (_streamResponseChunks cfg datas).1 in
  match last (omap cc_usage datas) with
  | Some u =>
      ∃ body, out = body ++ [usage_chunk u] ∧
        Forall (λ c, carries_usage c = false) body ∧
        m_usage_metadata (message (usage_chunk u)) =
          Some {| input_tokens := prompt_tokens u;
                  output_tokens := completion_tokens u;
                  total_tokens_out := total_tokens u |} ∧
        length (filter (λ c, carries_usage c = true) out) = 1%nat
  | None => Forall (λ c, carries_usage c = false) out
  end.
Proof.
  unfold _streamResponseChunks. simpl.
  pose proof (stream_fold_usage cfg stream_init datas) as Hu.
  pose proof (stream_fold_yielded cfg stream_init datas (Forall_nil_2 _)) as Hy.
  rewrite Hu.
  destruct (last (omap cc_usage datas)) as [u|]; simpl.
  - eexists. split; [done|]. split; [done|]. split; [done|].
    rewrite filter_app, length_app, filter_carries_usage_nil by done.
    done.
  - by rewrite app_nil_r.
Qed.

(** Two text deltas, a usage report, a later usage report: one closing
    chunk with the later counters. *)
Example stream_usage_example :
  m_usage_metadata ∘ message <$>
    (_streamResponseChunks quiet_settings
       [data_text "Hel"; data_usage 1 1; data_text "lo"; data_usage 7 2]).1 =
  [None; None;
   Some {| input_tokens := 7; output_tokens := 2; total_tokens_out := 9 |}].
Proof. vm_compute. reflexivity. Qed.

(** ** The streaming branch of [_generate] *)

Section GenerateFacts.

Variable concat : ChatGenerationChunk → ChatGenerationChunk → ChatGenerationChunk.

(** Writing [generationInfo] into the message leaves the index alone. *)
Lemma completion_index_absorb c :
  completion_index (absorb_info c) = completion_index c.
Proof. done. Qed.

Lemma group_cons i c (chunks : list ChatGenerationChunk) :
  group i (c :: chunks) =
  if decide (completion_index c = i) then c :: group i chunks else group i chunks.
Proof. unfold group. by rewrite filter_cons. Qed.

(** The group of an index: the fragments that carry it, in arrival order. *)
Lemma group_absorb i (chunks : list ChatGenerationChunk) :
  group i (absorb_info <$> chunks) =
  absorb_info <$> filter (λ c, completion_index c = i) chunks.
Proof.
  induction chunks as [|c chunks IH]; [done|].
  rewrite fmap_cons, group_cons, filter_cons, completion_index_absorb, IH.
  by destruct (decide (completion_index c = i)).
Qed.

(** What the loop leaves in a slot: the slot's old value, if any, merged
    with the fragments of that index in arrival order. *)
Lemma generate_loop_lookup (m : gmap Z ChatGenerationChunk) chunks i :
  foldl (generate_step concat) m chunks !! i =
  match m !! i with
  | Some existing => Some (foldl concat existing (group i (absorb_info <$> chunks)))
  | None => fold_group concat (group i (absorb_info <$> chunks))
  end.
Proof.
  revert m. induction chunks as [|c chunks IH]; intros m.
  - simpl. by destruct (m !! i).
  - cbn [foldl]. rewrite IH. unfold generate_step.
    rewrite fmap_cons, group_cons.
    destruct (decide (completion_index (absorb_info c) = i)) as [<-|Hne].
    + destruct (m !! completion_index (absorb_info c)) as [existing|] eqn:Hm;
        by rewrite lookup_insert_eq.
    + destruct (m !! completion_index (absorb_info c)) as [existing|] eqn:Hm;
        by rewrite lookup_insert_ne.
Qed.

Lemma fold_group_is_Some g : is_Some (fold_group concat g) ↔ g ≠ [].
Proof.
  destruct g as [|c g]; simpl.
  - split; [intros [x Hx]; discriminate | done].
  - split; [done | eauto].
Qed.

Lemma group_nonempty i (chunks : list ChatGenerationChunk) :
  group i chunks ≠ [] ↔ i ∈ completion_index <$> chunks.
Proof.
  unfold group. rewrite list_elem_of_fmap. split.
  - intros Hne. destruct (filter _ chunks) as [|c l] eqn:Hf; [done|].
    assert (c ∈ filter (λ c, completion_index c = i) chunks) as Hin
      by (rewrite Hf; left).
    apply list_elem_of_filter in Hin as [<- Hin]. eauto.
  - intros (c & -> & Hin) Hnil.
    assert (c ∈ filter (λ c0, completion_index c0 = completion_index c) chunks) as Hc
      by (by apply list_elem_of_filter).
    rewrite Hnil in Hc. by apply elem_of_nil in Hc.
Qed.

Lemma omap_ext_in {A B} (f g : A → option B) (l : list A) :
  (∀ x, x ∈ l → f x = g x) → omap f l = omap g l.
Proof.
  induction l as [|a l IH]; intros Hfg; [done|].
  change (omap ?f (?a :: ?l)) with
    (match f a with Some y => y :: omap f l | None => omap f l end).
  rewrite (Hfg a) by left. rewrite IH; [done|].
  intros x Hx. apply Hfg. by right.
Qed.

(** Sorting the entries by key and dropping the keys reads the map off at
    its keys in ascending order. *)
Lemma generations_of_lookup (m : gmap Z ChatGenerationChunk) (keys : list Z) :
  NoDup keys → (∀ i, i ∈ keys ↔ is_Some (m !! i)) →
  generations_of m = omap (λ i, m !! i) (merge_sort Z.le keys).
Proof.
  intros Hnodup Hkeys. unfold generations_of.
  set (entries := merge_sort by_key (map_to_list m)).
  assert (entries ≡ₚ map_to_list m) as Hperm by apply merge_sort_Permutation.
  assert (Sorted by_key entries) as Hsorted.
  { apply Sorted_merge_sort. intros x y. unfold by_key. lia. }
  assert (∀ i x, (i, x) ∈ entries → m !! i = Some x) as Hentries.
  { intros i x Hin. rewrite Hperm in Hin. by apply elem_of_map_to_list. }
  assert (entries.*1 = merge_sort Z.le keys) as <-.
  { apply (Sorted_unique Z.le).
    - clear -Hsorted. induction Hsorted as [|x l _ IH Hhd]; [constructor|].
      simpl. constructor; [done|]. destruct Hhd; constructor. done.
    - apply Sorted_merge_sort. intros x y. lia.
    - rewrite merge_sort_Permutation, Hperm.
      apply NoDup_Permutation; [apply NoDup_fst_map_to_list | done |].
      intros i. rewrite Hkeys, list_elem_of_fmap. split.
      + intros ([i' x] & -> & Hin). apply elem_of_map_to_list in Hin. eauto.
      + intros [x Hx]. exists (i, x). split; [done|].
        by apply elem_of_map_to_list. }
  clear -Hentries. induction entries as [|[i x] entries IH]; [done|].
  rewrite !fmap_cons. cbn [fst snd].
  change (omap ?f (?a :: ?l)) with
    (match f a with Some y => y :: omap f l | None => omap f l end).
  cbv beta. rewrite (Hentries i x) by left. f_equal.
  apply IH. intros i' x' Hin. apply Hentries. by right.
Qed.

(** The indices come out strictly ascending, each index of the stream
    once. *)
Lemma ascending_indices_spec chunks :
  Sorted Z.lt (ascending_indices chunks) ∧
  ∀ i, i ∈ ascending_indices chunks ↔ i ∈ completion_index <$> chunks.
Proof.
  unfold ascending_indices.
  set (l := remove_dups (completion_index <$> chunks)).
  assert (NoDup (merge_sort Z.le l)) as Hnodup.
  { rewrite merge_sort_Permutation. apply NoDup_remove_dups. }
  assert (StronglySorted Z.le (merge_sort Z.le l)) as Hsorted.
  { apply StronglySorted_merge_sort; [apply _ | intros x y; lia]. }
  split.
  - induction Hsorted as [|x s _ IH Hall]; [constructor|].
    apply NoDup_cons in Hnodup as [Hx Hnodup].
    constructor; [by apply IH|].
    destruct s as [|y s]; constructor.
    apply Forall_cons in Hall as [Hxy _].
    assert (x ≠ y) by (intros ->; apply Hx; left). lia.
  - intros i. rewrite merge_sort_Permutation. apply elem_of_remove_dups.
Qed.

(** The loop followed by the sort computes the aggregation by index. *)
Lemma generate_stream_returns chunks :
  generate_stream concat (chunks, None) =
  Returned (aggregate_by_index concat chunks).
Proof.
  unfold generate_stream, aggregate_by_index, ascending_indices. simpl. f_equal.
  rewrite (generations_of_lookup _ (remove_dups (completion_index <$> chunks))).
  - apply omap_ext_in. intros i _.
    by rewrite generate_loop_lookup, lookup_empty.
  - apply NoDup_remove_dups.
  - intros i. rewrite elem_of_remove_dups, generate_loop_lookup, lookup_empty.
    rewrite fold_group_is_Some, group_nonempty, <- list_fmap_compose.
    done.
Qed.

(** A failing stream fails the call. *)
Lemma generate_stream_failure chunks failure :
  generate_stream concat (chunks, Some failure) = Threw failure.
Proof. done. Qed.

(** C2: for every finite stream of fragments that ends normally, the
    streaming branch of [_generate] returns, for each stream index in
    strictly ascending numeric order (each index of the stream once,
    whatever the arrival order), the fragments of that index folded by
    pairwise merge in arrival order, seeded with the first of them.  The
    group of an index is the subsequence of the fragments that carry it;
    the index of a fragment is the number its [generationInfo] holds under
    [completion], and 0 when it holds none. *)
Theorem generate_stream_by_index chunks :
  generate_stream concat (chunks, None) =
    Returned (omap (λ i, fold_group concat (group i (absorb_info <$> chunks)))
                (ascending_indices chunks)) ∧
  Sorted Z.lt (ascending_indices chunks) ∧
  (∀ i, i ∈ ascending_indices chunks ↔ i ∈ completion_index <$> chunks) ∧
  (∀ i, group i (absorb_info <$> chunks) =
        absorb_info <$> filter (λ c, completion_index c = i) chunks) ∧
  (∀ c info n, generationInfo c = Some info →
     info !! "completion" = Some (VNum n) → completion_index c = n) ∧
  (∀ c, (∀ info n, generationInfo c = Some info →
           info !! "completion" ≠ Some (VNum n)) →
        completion_index c = 0).
Proof.
  split; [apply generate_stream_returns|].
  split; [apply ascending_indices_spec|].
  split; [apply ascending_indices_spec|].
  split; [intros i; apply group_absorb|].
  split.
  - intros c info n Hinfo Hn. unfold completion_index. by rewrite Hinfo, Hn.
  - intros c Hnone. unfold completion_index.
    destruct (generationInfo c) as [info|]; [|done].
    destruct (info !! "completion") as [[| |n| | |]|] eqn:Hn; try done.
    by destruct (Hnone info n).
Qed.

End GenerateFacts.

(** Fragments delivered with indices 1, 0, 1, 0: index 0 comes out first,
    each slot merged from its two fragments in arrival order. *)
Example index_ordering :
  generate_stream sample_concat
    ([text_fragment "b1" (Some 1); text_fragment "a1" (Some 0);
      text_fragment "b2" (Some 1); text_fragment "a2" (Some 0)], None) =
  Returned
    [sample_concat (absorb_info (text_fragment "a1" (Some 0)))
                   (absorb_info (text_fragment "a2" (Some 0)));
     sample_concat (absorb_info (text_fragment "b1" (Some 1)))
                   (absorb_info (text_fragment "b2" (Some 1)))] ∧
  text <$> aggregate_by_index sample_concat
    [text_fragment "b1" (Some 1); text_fragment "a1" (Some 0);
     text_fragment "b2" (Some 1); text_fragment "a2" (Some 0)] =
  ["a1a2"; "b1b2"].
Proof. split; vm_compute; reflexivity. Qed.

(** ** Token usage across calls *)

Lemma add_totals_assoc a b c :
  add_totals (add_totals a b) c = add_totals a (add_totals b c).
Proof. unfold add_totals. simpl. f_equal; lia. Qed.

Lemma add_totals_no_tokens_r a : add_totals a no_tokens = a.
Proof. destruct a. unfold add_totals. simpl. f_equal; lia. Qed.

(** What one output adds to the sums. *)
Lemma combine_step_add acc o :
  combine_step acc o = add_totals acc (combine_step no_tokens o).
Proof.
  unfold combine_step. destruct (o ≫= tokenUsage) as [u|].
  - unfold add_totals. simpl. done.
  - by rewrite add_totals_no_tokens_r.
Qed.

Lemma combine_fold_add acc l :
  foldl combine_step acc l = add_totals acc (foldl combine_step no_tokens l).
Proof.
  revert acc. induction l as [|o l IH]; intros acc.
  - simpl. by rewrite add_totals_no_tokens_r.
  - cbn [foldl]. rewrite IH, (IH (combine_step no_tokens o)).
    by rewrite (combine_step_add acc), add_totals_assoc.
Qed.

(** [_combineLLMOutput] is additive: the sums over two batches of outputs
    joined are, counter by counter, the sums over each batch added. *)
Theorem combineLLMOutput_app l1 l2 :
  _combineLLMOutput (l1 ++ l2) =
  add_totals (_combineLLMOutput l1) (_combineLLMOutput l2).
Proof. unfold _combineLLMOutput. by rewrite foldl_app, combine_fold_add. Qed.

(** When in every output that reports usage the total is the prompt count
    plus the completion count (absent counters read as 0), the combined
    total is the combined prompt count plus the combined completion
    count. *)
Theorem combineLLMOutput_balanced l :
  Forall balanced l →
  sum_total (_combineLLMOutput l) =
  sum_prompt (_combineLLMOutput l) + sum_completion (_combineLLMOutput l).
Proof.
  unfold _combineLLMOutput.
  assert (∀ acc, sum_total acc = sum_prompt acc + sum_completion acc →
    Forall balanced l →
    let r := foldl combine_step acc l in
    sum_total r = sum_prompt r + sum_completion r) as H; [|by apply H].
  induction l as [|o l IH]; intros acc Hacc Hl; [done|].
  apply Forall_cons in Hl as [Ho Hl]. cbn [foldl]. apply IH; [|done].
  unfold combine_step. destruct (o ≫= tokenUsage) as [u|] eqn:Hu; [|done].
  simpl. specialize (Ho u Hu). lia.
Qed.

Lemma nonzero_default n : default 0 (nonzero n) = default 0 n.
Proof. by destruct n as [[]|]. Qed.

Section PlainFacts.

Variable parseToolCall : RawToolCall → Outcome ToolCall.
Variable makeInvalidToolCall : RawToolCall → string → InvalidToolCall.
Variable isAIMessage : Message → bool.

Lemma plain_output_totals flag data :
  combine_step no_tokens
    (Some (generate_plain parseToolCall makeInvalidToolCall isAIMessage
             flag data).2) =
  usage_totals (c_usage data).
Proof.
  unfold combine_step, generate_plain, plain_token_usage. simpl.
  rewrite !nonzero_default. by destruct (c_usage data).
Qed.

(** Combining the outputs of plain calls gives the sums of the counters the
    responses reported: a zero counter, which [_generate] leaves out of
    [tokenUsage], is read back as 0. *)
Theorem combineLLMOutput_plain flag datas :
  _combineLLMOutput
    ((λ data, Some (generate_plain parseToolCall makeInvalidToolCall isAIMessage
                      flag data).2) <$> datas) =
  foldr (λ data, add_totals (usage_totals (c_usage data))) no_tokens datas.
Proof.
  unfold _combineLLMOutput. induction datas as [|data datas IH]; [done|].
  cbn [fmap list_fmap foldl foldr].
  change (list_fmap _ _ ?f datas) with (f <$> datas).
  by rewrite combine_fold_add, IH, plain_output_totals.
Qed.

(** Over any batch of calls the combined usage is the sum of the counters
    the responses of the plain calls reported: the [llmOutput] of a
    streamed call adds nothing, wherever it stands, since it holds
    [estimatedTokenUsage] and [_combineLLMOutput] reads [tokenUsage]
    only. *)
Theorem combineLLMOutput_streamed calls :
  _combineLLMOutput
    ((λ call, Some (llmOutput_of parseToolCall makeInvalidToolCall isAIMessage
                      call)) <$> calls) =
  foldr (λ call, add_totals (reported_usage call)) no_tokens calls.
Proof.
  unfold _combineLLMOutput. induction calls as [|call calls IH]; [done|].
  cbn [fmap list_fmap foldl foldr].
  change (list_fmap _ _ ?f calls) with (f <$> calls).
  rewrite combine_fold_add, IH. f_equal.
  destruct call as [flag data|p c]; [apply plain_output_totals|done].
Qed.

(** The tool calls of the message: a partition of the raw calls. *)
Lemma response_tool_fold acc raws :
  foldl (response_tool_step parseToolCall makeInvalidToolCall) acc raws =
  (acc.1 ++ omap (parsed_of parseToolCall) raws,
   acc.2 ++ omap (rejected_of parseToolCall makeInvalidToolCall) raws).
Proof.
  revert acc. induction raws as [|r raws IH]; intros [v i].
  - simpl. by rewrite !app_nil_r.
  - cbn [foldl]. rewrite IH.
    change (omap ?f (r :: raws)) with
      (match f r with Some y => y :: omap f raws | None => omap f raws end).
    unfold response_tool_step, parsed_of, rejected_of at 2. simpl.
    destruct (parseToolCall r); simpl; by rewrite <- ?app_assoc.
Qed.

Lemma toMessage_assistant message data flag :
  rm_role message = Some "assistant" →
  let raws := default [] (rm_tool_calls message) in
  let m := openAIResponseToChatMessage parseToolCall makeInvalidToolCall
             message data flag in
  msg_tool_calls m = omap (parsed_of parseToolCall) raws ∧
  msg_invalid_tool_calls m =
    omap (rejected_of parseToolCall makeInvalidToolCall) raws ∧
  m_type (msg_fields m) = ai.
Proof.
  intros Hrole. unfold openAIResponseToChatMessage. rewrite Hrole.
  rewrite response_tool_fold. simpl. done.
Qed.

End PlainFacts.

(** ** Converted deltas *)

(** The chunk a delta converts to, by the role in force. *)
Lemma converted_chunk_cases delta data defaultRole raw :
  let role := match d_role delta with Some r => Some r | None => defaultRole end in
  let c := _convertDeltaToMessageChunk delta data defaultRole raw in
  m_content c = default (ContentText "") (d_content delta) ∧
  ((role = Some "user" ∧ m_type c = human ∧ m_additional_kwargs c = ∅) ∨
   (role = Some "assistant" ∧ m_type c = ai ∧
      m_additional_kwargs c = delta_additional_kwargs delta data raw) ∨
   (role = Some "system" ∧ m_type c = system ∧ m_additional_kwargs c = ∅) ∨
   (role = Some "function" ∧ m_type c = function ∧
      m_additional_kwargs c = delta_additional_kwargs delta data raw) ∨
   (role = Some "tool" ∧ m_type c = tool ∧
      m_additional_kwargs c = delta_additional_kwargs delta data raw) ∨
   (m_type c = generic ∧ m_role c = role ∧ m_additional_kwargs c = ∅)).
Proof.
  intros role c.
  assert (c = _convertDeltaToMessageChunk delta data defaultRole raw) as Hc by done.
  clearbody c. unfold _convertDeltaToMessageChunk in Hc. cbv zeta in Hc.
  fold role in Hc. fold (delta_additional_kwargs delta data raw) in Hc.
  clearbody role.
  repeat case_match; subst; simpl; (split; [done|]);
    first [ by do 5 right | by left | by right; left | by do 2 right; left
          | by do 3 right; left | by do 4 right; left ].
Qed.

Section ResponseFacts.

Variable parseToolCall : RawToolCall → Outcome ToolCall.
Variable makeInvalidToolCall : RawToolCall → string → InvalidToolCall.

Lemma toMessage_other message data flag :
  rm_role message ≠ Some "assistant" →
  openAIResponseToChatMessage parseToolCall makeInvalidToolCall message data flag =
  {| msg_fields :=
       {| m_type := generic;
          m_content := ContentText (or_empty (rm_content message));
          m_additional_kwargs := ∅; m_response_metadata := ∅;
          m_tool_call_chunks := []; m_usage_metadata := None;
          m_id := None; m_name := None; m_tool_call_id := None;
          m_role := Some (default "unknown" (rm_role message)) |};
     msg_tool_calls := []; msg_invalid_tool_calls := [] |}.
Proof.
  intros Hrole. unfold openAIResponseToChatMessage.
  repeat case_match; subst; try done.
Qed.

Lemma parse_partition_length raws :
  (length (omap (parsed_of parseToolCall) raws) +
   length (omap (rejected_of parseToolCall makeInvalidToolCall) raws) =
   length raws)%nat.
Proof.
  induction raws as [|r raws IH]; [done|].
  change (omap ?f (r :: raws)) with
    (match f r with Some y => y :: omap f raws | None => omap f raws end).
  unfold parsed_of at 1, rejected_of at 1.
  destruct (parseToolCall r); cbn [length]; lia.
Qed.

(** The message of a response: for the role [assistant] an AI message whose
    valid and invalid tool calls are the raw calls [parseToolCall] accepts
    and rejects, each in the order of the response, so that their numbers
    add up to the number of raw calls; for any other role a generic message
    with that role ([unknown] when absent) and no tool calls, whatever
    [tool_calls] the response carried. *)
Theorem response_message_tool_calls message data flag :
  let m := openAIResponseToChatMessage parseToolCall makeInvalidToolCall
             message data flag in
  let raws := default [] (rm_tool_calls message) in
  (rm_role message = Some "assistant" →
     m_type (msg_fields m) = ai ∧
     msg_tool_calls m = omap (parsed_of parseToolCall) raws ∧
     msg_invalid_tool_calls m =
       omap (rejected_of parseToolCall makeInvalidToolCall) raws ∧
     (length (msg_tool_calls m) + length (msg_invalid_tool_calls m) =
      length raws)%nat) ∧
  (rm_role message ≠ Some "assistant" →
     m_type (msg_fields m) = generic ∧
     m_role (msg_fields m) = Some (default "unknown" (rm_role message)) ∧
     msg_tool_calls m = [] ∧ msg_invalid_tool_calls m = []).
Proof.
  simpl. split.
  - intros Hrole.
    destruct (toMessage_assistant parseToolCall makeInvalidToolCall
                message data flag Hrole) as (Hv & Hi & Ht).
    rewrite Hv, Hi. repeat split; try done. apply parse_partition_length.
  - intros Hrole. by rewrite toMessage_other.
Qed.

Lemma response_kwargs_no_raw (fc : option Value) (tcs : option Value) :
  insert_opt "function_call" fc (insert_opt "tool_calls" tcs ∅)
    !! "__raw_response" = None.
Proof.
  destruct fc, tcs; simpl;
    rewrite ?lookup_insert_ne by done; apply lookup_empty.
Qed.

Lemma converted_chunk_no_raw delta chunk role :
  m_additional_kwargs (_convertDeltaToMessageChunk delta chunk role false)
    !! "__raw_response" = None.
Proof.
  assert (delta_additional_kwargs delta chunk false !! "__raw_response" = None)
    as Hkw.
  { unfold delta_additional_kwargs. simpl. repeat case_match;
      rewrite ?lookup_singleton_ne by done; try apply lookup_empty; done. }
  destruct (converted_chunk_cases delta chunk role false)
    as (_ & [(_ & _ & ->)|[(_ & _ & ->)|[(_ & _ & ->)|[(_ & _ & ->)|
             [(_ & _ & ->)|(_ & _ & ->)]]]]]); done.
Qed.

(** [__includeRawResponse] is read in two ways.  The plain path tests
    [!== undefined]: an assistant message carries [__raw_response] for
    [true] and for [false], and not when the flag is absent.  The
    streaming path tests truthiness: under [false] no converted chunk
    carries it. *)
Theorem raw_response_flag message data b delta chunk role :
  rm_role message = Some "assistant" →
  let plain flag :=
    m_additional_kwargs
      (msg_fields (openAIResponseToChatMessage parseToolCall makeInvalidToolCall
                     message data flag)) in
  plain (Some b) !! "__raw_response" = Some (c_raw data) ∧
  plain None !! "__raw_response" = None ∧
  m_additional_kwargs (_convertDeltaToMessageChunk delta chunk role false)
    !! "__raw_response" = None.
Proof.
  intros Hrole. simpl. unfold openAIResponseToChatMessage. rewrite Hrole.
  rewrite response_tool_fold. simpl.
  split; [apply lookup_insert_eq|].
  split; [apply response_kwargs_no_raw | apply converted_chunk_no_raw].
Qed.

End ResponseFacts.

Section RoleFacts.

Variable ChatMessage_isInstance : MessageChunk → bool.
Hypothesis generic_is_instance :
  ∀ m, m_type m = generic → ChatMessage_isInstance m = true.

(** A converted delta answers the role it was converted under. *)
Lemma converted_chunk_role delta data defaultRole raw :
  messageToOpenAIRole ChatMessage_isInstance
    (_convertDeltaToMessageChunk delta data defaultRole raw) =
  Returned (match d_role delta with Some r => Some r | None => defaultRole end).
Proof.
  destruct (converted_chunk_cases delta data defaultRole raw)
    as (_ & [(-> & Ht & _)|[(-> & Ht & _)|[(-> & Ht & _)|[(-> & Ht & _)|
             [(-> & Ht & _)|(Ht & Hr & _)]]]]]);
    unfold messageToOpenAIRole, _getType; rewrite Ht; try done.
  simpl. rewrite generic_is_instance by done.
  unfold extractGenericMessageCustomRole. by rewrite Hr.
Qed.

End RoleFacts.

(** The loop's [defaultRole] is the last role a delta stated. *)
Lemma stream_step_defaultRole cfg st data :
  st_defaultRole (stream_step cfg st data) =
  match delta_role data with Some r => Some r | None => st_defaultRole st end.
Proof.
  unfold stream_step, delta_role.
  destruct (head (cc_choices data)) as [choice|]; [|done].
  destruct (ch_delta choice) as [delta|]; [|done].
  by destruct (m_content _).
Qed.

Lemma stream_fold_defaultRole cfg st datas :
  st_defaultRole (foldl (stream_step cfg) st datas) =
  match last (omap delta_role datas) with
  | Some r => Some r
  | None => st_defaultRole st
  end.
Proof.
  revert st. induction datas as [|d datas IH]; intros st; [done|].
  cbn [foldl]. rewrite IH, stream_step_defaultRole.
  change (omap delta_role (d :: datas)) with
    (match delta_role d with
     | Some r => r :: omap delta_role datas
     | None => omap delta_role datas
     end).
  destruct (delta_role d) as [r|]; [|done].
  rewrite last_cons. by destruct (last (omap delta_role datas)).
Qed.

(** What one turn of the loop yields: nothing, or one chunk converted from
    the first choice's delta under the [defaultRole] in force. *)
Lemma stream_step_new cfg st data :
  st_yielded (stream_step cfg st data) = st_yielded st ∨
  ∃ choice delta content,
    head (cc_choices data) = Some choice ∧ ch_delta choice = Some delta ∧
    m_content (_convertDeltaToMessageChunk delta data (st_defaultRole st)
                 (includeRawResponse cfg)) = ContentText content ∧
    st_yielded (stream_step cfg st data) =
      st_yielded st ++
      [ {| text := content;
           message := _convertDeltaToMessageChunk delta data (st_defaultRole st)
                        (includeRawResponse cfg);
           generationInfo := Some (generation_info cfg data choice) |} ].
Proof.
  unfold stream_step.
  destruct (head (cc_choices data)) as [choice|]; [|by left].
  destruct (ch_delta choice) as [delta|] eqn:Hd; [|by left].
  destruct (m_content _) as [content|parts] eqn:Hc; [|by left].
  right. by exists choice, delta, content.
Qed.

Section StreamRoleFacts.

Variable ChatMessage_isInstance : MessageChunk → bool.

(** A chunk the stream yields for a delta answers, as its OpenAI role, the
    last role a delta of the stream stated up to then: a delta without a
    role inherits the role in force ([ChatMessage.isInstance] is taken to
    accept generic chunks). *)
Theorem stream_role_inherited cfg datas data c :
  (∀ m, m_type m = generic → ChatMessage_isInstance m = true) →
  st_yielded (foldl (stream_step cfg) stream_init (datas ++ [data])) =
    st_yielded (foldl (stream_step cfg) stream_init datas) ++ [c] →
  messageToOpenAIRole ChatMessage_isInstance (message c) =
    Returned (last (omap delta_role (datas ++ [data]))).
Proof.
  intros Hinst. rewrite foldl_app. cbn [foldl].
  set (before := foldl (stream_step cfg) stream_init datas).
  intros Hc.
  destruct (stream_step_new cfg before data)
    as [Hsame|(choice & delta & content & Hchoice & Hdelta & _ & Hnew)].
  - rewrite Hsame in Hc. apply (f_equal length) in Hc.
    rewrite length_app in Hc. simpl in Hc. lia.
  - rewrite Hnew in Hc. apply app_inv_head in Hc. injection Hc as <-.
    simpl. rewrite converted_chunk_role by done.
    f_equal. unfold before. rewrite stream_fold_defaultRole.
    rewrite omap_app, last_app.
    change (omap delta_role [data]) with
      (match delta_role data with Some r => [r] | None => [] end).
    assert (delta_role data = d_role delta) as ->
      by (unfold delta_role; by rewrite Hchoice, Hdelta).
    destruct (d_role delta); [done|].
    by destruct (last (omap delta_role datas)).
Qed.

End StreamRoleFacts.

(** Witness: an assistant delta followed by a delta without a role. *)
Lemma stream_role_inherited_witness :
  ∃ c,
    st_yielded (foldl (stream_step quiet_settings) stream_init
                  ([data_text "Hel"] ++ [data_more "lo"])) =
      st_yielded (foldl (stream_step quiet_settings) stream_init
                    [data_text "Hel"]) ++ [c] ∧
    messageToOpenAIRole is_generic (message c) = Returned (Some "assistant").
Proof.
  eexists. split; [vm_compute; reflexivity|].
  apply (stream_role_inherited is_generic quiet_settings
           [data_text "Hel"] (data_more "lo")).
  - intros m Hm. unfold is_generic, _getType. by rewrite Hm.
  - vm_compute. reflexivity.
Defined.

(** ** The shape of the yielded chunks *)

Lemma generation_info_indices cfg data choice :
  generation_info cfg data choice !! "prompt" =
    Some (VNum (default 0 (promptIndex cfg))) ∧
  generation_info cfg data choice !! "completion" =
    Some (VNum (default 0 (ch_index choice))).
Proof.
  unfold generation_info, insert_opt, opt_str.
  split; repeat case_match; simplify_eq/=;
    rewrite ?lookup_insert_ne by done;
    by rewrite ?lookup_insert_eq, ?lookup_insert_ne, ?lookup_singleton_eq by done.
Qed.

Lemma stream_fold_shape cfg st datas :
  Forall (yielded_shape cfg) (st_yielded st) →
  Forall (yielded_shape cfg) (st_yielded (foldl (stream_step cfg) st datas)).
Proof.
  revert st. induction datas as [|d datas IH]; intros st Hst; [done|].
  cbn [foldl]. apply IH.
  destruct (stream_step_new cfg st d)
    as [->|(choice & delta & content & _ & _ & Hcontent & ->)]; [done|].
  apply Forall_app. split; [done|]. repeat constructor; simpl; [done| | |].
  - unfold carries_usage. simpl. by rewrite converted_chunk_no_usage.
  - apply generation_info_indices.
  - eexists. apply generation_info_indices.
Qed.

(** Every chunk the stream yields has its text as message content (a delta
    with non-string content yields nothing); every chunk but the closing
    usage chunk carries the prompt index and a completion index, and the
    usage chunk carries no [generationInfo]. *)
Theorem stream_chunks_shape cfg datas :
  Forall (yielded_shape cfg) (_streamResponseChunks cfg datas).1.
Proof.
  unfold _streamResponseChunks. simpl. apply Forall_app. split.
  - by apply stream_fold_shape.
  - destruct (st_usage _); repeat constructor.
Qed.

(** ** The usage chunk in the streaming branch *)

Section StreamingFacts.

Variable concat : ChatGenerationChunk → ChatGenerationChunk → ChatGenerationChunk.

(** The closing usage chunk carries no index, so the aggregation files it
    under completion 0: the generation of index 0 is the fold of the
    index-0 chunks followed by the usage chunk, and it is the usage chunk
    alone when the stream produced no chunk of index 0. *)
Theorem usage_joins_completion_0 cfg datas u :
  signal_aborted cfg = false →
  last (omap cc_usage datas) = Some u →
  ∃ body generations merged,
    (_streamResponseChunks cfg datas).1 = body ++ [usage_chunk u] ∧
    generate_stream concat (_streamResponseChunks cfg datas) =
      Returned generations ∧
    fold_group concat (group 0 (absorb_info <$> body) ++ [usage_chunk u]) =
      Some merged ∧
    merged ∈ generations.
Proof.
  intros Habort Hu.
  unfold _streamResponseChunks. rewrite Habort, stream_fold_usage, Hu. simpl.
  set (body := st_yielded (foldl (stream_step cfg) stream_init datas)).
  assert (group 0 (absorb_info <$> (body ++ [usage_chunk u])) =
          group 0 (absorb_info <$> body) ++ [usage_chunk u]) as Hgroup.
  { rewrite fmap_app. unfold group. rewrite filter_app. f_equal. }
  destruct (fold_group concat (group 0 (absorb_info <$> body) ++ [usage_chunk u]))
    as [merged|] eqn:Hmerged.
  2: { exfalso. assert (is_Some (None : option ChatGenerationChunk)) as [? ?]; [|done].
       rewrite <- Hmerged. apply fold_group_is_Some.
       intros Hnil. by apply app_nil in Hnil as [_ ?]. }
  exists body, (aggregate_by_index concat (body ++ [usage_chunk u])), merged.
  split; [done|]. split; [apply generate_stream_returns|]. split; [done|].
  unfold aggregate_by_index. apply list_elem_of_omap. exists 0. split.
  - apply ascending_indices_spec. rewrite fmap_app. apply elem_of_app. right.
    simpl. apply list_elem_of_singleton. done.
  - by rewrite Hgroup.
Qed.

End StreamingFacts.

(** ** Outgoing messages *)

Lemma map_outcome_Returned {A B} (f : A → Outcome B) l ys :
  map_outcome f l = Returned ys ↔ Forall2 (λ x y, f x = Returned y) l ys.
Proof.
  revert ys. induction l as [|x l IH]; intros ys; simpl.
  - split; [intros [= <-]; constructor | by inversion 1].
  - destruct (f x) as [y|e] eqn:Hx.
    + destruct (map_outcome f l) as [ys'|e] eqn:Hl.
      * split.
        -- intros [= <-]. constructor; [done|]. by apply IH.
        -- inversion 1 as [|? y' ? ys'' Hy Hrest]; subst.
           apply IH in Hrest. congruence.
      * split; [done|]. inversion 1 as [|? y' ? ys'' Hy Hrest]; subst.
        apply IH in Hrest. done.
    + split; [done|]. inversion 1; congruence.
Qed.

Lemma map_outcome_Threw {A B} (f : A → Outcome B) l e :
  map_outcome f l = Threw e →
  ∃ l1 x l2, l = l1 ++ x :: l2 ∧ f x = Threw e ∧
             Forall (λ x', ∃ y, f x' = Returned y) l1.
Proof.
  induction l as [|x l IH]; simpl; [done|].
  destruct (f x) as [y|e'] eqn:Hx.
  - destruct (map_outcome f l) as [ys'|e''] eqn:Hl; [done|].
    intros [= ->]. destruct (IH eq_refl) as (l1 & x' & l2 & -> & Hx' & Hl1).
    exists (x :: l1), x', l2. repeat split; [done|]. constructor; [by eexists|done].
  - intros [= ->]. by exists [], x, l.
Qed.

Lemma forallb_Forall {A} (f : A → bool) (l : list A) :
  forallb f l = true ↔ Forall (λ x, f x = true) l.
Proof.
  induction l as [|x l IH]; simpl.
  - split; [constructor|done].
  - rewrite andb_true_iff, Forall_cons, IH. done.
Qed.

Section ConvertFacts.

Variable ChatMessage_isInstance : MessageChunk → bool.
Variable isAIMessage : Message → bool.
Variable convertLangChainToolCallToOpenAI : ToolCall → Value.

(** What [messageToOpenAIRole] answers: a role for the messages that have
    one, and for the others the failure of its [generic] case or of its
    [default] case. *)
Lemma messageToOpenAIRole_outcome message :
  match messageToOpenAIRole ChatMessage_isInstance (msg_fields message) with
  | Returned _ => has_role ChatMessage_isInstance message = true
  | Threw failure =>
      has_role ChatMessage_isInstance message = false ∧
      failure = role_failure message
  end.
Proof.
  unfold messageToOpenAIRole, has_role, role_failure. cbv zeta.
  set (type := _getType (msg_fields message)). clearbody type.
  destruct (String.eqb_spec type "system") as [->|H1]; [done|].
  destruct (String.eqb_spec type "ai") as [->|H2]; [done|].
  destruct (String.eqb_spec type "human") as [->|H3]; [done|].
  destruct (String.eqb_spec type "function") as [->|H4]; [done|].
  destruct (String.eqb_spec type "tool") as [->|H5]; [done|].
  assert (bool_decide (type ∈ ["system"; "ai"; "human"; "function"; "tool"]) =
          false) as ->.
  { apply bool_decide_eq_false. rewrite !elem_of_cons, elem_of_nil. tauto. }
  destruct (String.eqb_spec type "generic") as [->|H6].
  - simpl. by destruct (ChatMessage_isInstance _).
  - by rewrite bool_decide_eq_false_2.
Qed.

Lemma has_role_spec message :
  has_role ChatMessage_isInstance message = true ↔
  ∃ p, convertMessage ChatMessage_isInstance isAIMessage
         convertLangChainToolCallToOpenAI message = Returned p.
Proof.
  pose proof (messageToOpenAIRole_outcome message) as Hrole.
  unfold convertMessage.
  destruct (messageToOpenAIRole _ _) as [role|failure].
  - split; [intros _; by eexists|done].
  - destruct Hrole as [-> _]. split; [done|by intros [? ?]].
Qed.

(** [convertMessagesToOpenAIParams] returns exactly when every message has
    an OpenAI role: then it gives one parameter per message, in order, with
    the role of [messageToOpenAIRole] and the message's name.  Otherwise it
    fails at the first message without a role, with [Invalid generic chat
    message] when that message is generic and with [Unknown message type]
    and the type otherwise. *)
Theorem convertMessagesToOpenAIParams_outcome messages :
  match convertMessagesToOpenAIParams ChatMessage_isInstance isAIMessage
          convertLangChainToolCallToOpenAI messages with
  | Returned params =>
      forallb (has_role ChatMessage_isInstance) messages = true ∧
      length params = length messages ∧
      Forall2 (λ message p,
                 messageToOpenAIRole ChatMessage_isInstance (msg_fields message) =
                   Returned (cp_role p) ∧
                 cp_name p = m_name (msg_fields message))
              messages params
  | Threw failure =>
      ∃ before message after,
        messages = before ++ message :: after ∧
        forallb (has_role ChatMessage_isInstance) before = true ∧
        has_role ChatMessage_isInstance message = false ∧
        failure = role_failure message
  end.
Proof.
  unfold convertMessagesToOpenAIParams.
  destruct (map_outcome _ messages) as [params|e] eqn:Hmap.
  - apply map_outcome_Returned in Hmap. split; [|split].
    + apply forallb_Forall, Forall_forall. intros message Hin.
      apply has_role_spec.
      apply list_elem_of_lookup in Hin as [i Hi].
      destruct (Forall2_lookup_l _ _ _ _ _ Hmap Hi) as (p & _ & Hp). by exists p.
    + symmetry. by eapply Forall2_length.
    + eapply Forall2_impl; [done|]. intros message p. simpl.
      unfold convertMessage.
      destruct (messageToOpenAIRole _ _) as [role|?]; [|done].
      by intros [= <-].
  - apply map_outcome_Threw in Hmap as (l1 & x & l2 & -> & Hx & Hl1).
    exists l1, x, l2. split; [done|]. split.
    + apply forallb_Forall. eapply Forall_impl; [done|].
      intros message. apply has_role_spec.
    + pose proof (messageToOpenAIRole_outcome x) as Hrole.
      unfold convertMessage in Hx.
      destruct (messageToOpenAIRole _ _) as [role|e']; [done|].
      injection Hx as ->. done.
Qed.

End ConvertFacts.

Section RoundTripFacts.

Variable parseToolCall : RawToolCall → Outcome ToolCall.
Variable makeInvalidToolCall : RawToolCall → string → InvalidToolCall.
Variable ChatMessage_isInstance : MessageChunk → bool.
Variable isAIMessage : Message → bool.
Variable convertLangChainToolCallToOpenAI : ToolCall → Value.

(** The base fields of the message a response converts to. *)
Lemma toMessage_fields message data flag :
  let m := msg_fields (openAIResponseToChatMessage parseToolCall
                         makeInvalidToolCall message data flag) in
  m_content m = ContentText (or_empty (rm_content message)) ∧
  m_usage_metadata m = None ∧ m_name m = None ∧ m_tool_call_id m = None.
Proof.
  destruct (decide (rm_role message = Some "assistant")) as [Hrole|Hrole].
  - unfold openAIResponseToChatMessage. rewrite Hrole.
    by rewrite response_tool_fold.
  - by rewrite toMessage_other.
Qed.

(** [function_call] and [tool_calls] as an assistant message keeps them. *)
Lemma toMessage_kwargs message data flag :
  rm_role message = Some "assistant" →
  let kw := m_additional_kwargs
              (msg_fields (openAIResponseToChatMessage parseToolCall
                             makeInvalidToolCall message data flag)) in
  kw !! "function_call" = rm_function_call message ∧
  kw !! "tool_calls" =
    (λ l, VSeq (raw_tool_call_value <$> l)) <$> rm_tool_calls message.
Proof.
  intros Hrole. unfold openAIResponseToChatMessage. rewrite Hrole.
  rewrite response_tool_fold. simpl.
  destruct flag, (rm_function_call message), (rm_tool_calls message); simpl;
    rewrite ?lookup_insert_eq, ?lookup_insert_ne by done;
    rewrite ?lookup_insert_eq, ?lookup_insert_ne by done;
    rewrite ?lookup_insert_eq, ?lookup_insert_ne by done; done.
Qed.

(** An assistant response converted to a message and back to a request
    parameter: the role is [assistant]; the content is [null] as soon as
    the response has a function call or one tool call that parses;
    [tool_calls] holds the converted calls that parsed (the rejected raw
    calls are dropped), or the raw calls unchanged when none parsed. *)
Theorem response_to_request message data flag :
  rm_role message = Some "assistant" →
  (∀ m, m_type (msg_fields m) = ai → isAIMessage m = true) →
  let parsed :=
    omap (parsed_of parseToolCall) (default [] (rm_tool_calls message)) in
  convertMessage ChatMessage_isInstance isAIMessage convertLangChainToolCallToOpenAI
    (openAIResponseToChatMessage parseToolCall makeInvalidToolCall
       message data flag) =
  Returned
    {| cp_role := Some "assistant";
       cp_content :=
         if non_null (rm_function_call message) ||
            match parsed with [] => false | _ => true end
         then None
         else Some (ContentText (or_empty (rm_content message)));
       cp_name := None;
       cp_function_call :=
         if non_null (rm_function_call message)
         then rm_function_call message else None;
       cp_tool_calls :=
         match parsed with
         | [] => (λ l, VSeq (raw_tool_call_value <$> l)) <$> rm_tool_calls message
         | _ => Some (VSeq (convertLangChainToolCallToOpenAI <$> parsed))
         end;
       cp_tool_call_id := None |}.
Proof.
  intros Hrole HisAI parsed.
  destruct (toMessage_assistant parseToolCall makeInvalidToolCall
              message data flag Hrole) as (Hcalls & _ & Htype).
  destruct (toMessage_kwargs message data flag Hrole) as (Hfc & Htc).
  destruct (toMessage_fields message data flag) as (Hcontent & _ & Hname & Htid).
  unfold convertMessage, messageToOpenAIRole, _getType, has_tool_calls.
  rewrite Htype, Hfc, Htc, Hcontent, Hname, Htid, Hcalls, (HisAI _ Htype).
  fold parsed. simpl.
  destruct parsed; [|done].
  by destruct (rm_tool_calls message).
Qed.

(** The plain branch gives one generation per choice, in order: the
    content of its message is its text, and its usage metadata, set when
    [isAIMessage] accepts the message, holds the counters of the response's
    [usage] (0 for an absent one). *)
Theorem generate_plain_generations flag data :
  Forall2
    (λ part generation,
       let message :=
         openAIResponseToChatMessage parseToolCall makeInvalidToolCall
           (default {| rm_role := Some "assistant"; rm_content := None;
                       rm_tool_calls := None; rm_function_call := None |}
                    (rc_message part))
           data flag in
       m_content (msg_fields (g_message generation)) =
         ContentText (g_text generation) ∧
       m_usage_metadata (msg_fields (g_message generation)) =
         (if isAIMessage message then Some (usage_counters (c_usage data))
          else None))
    (c_choices data)
    (generate_plain parseToolCall makeInvalidToolCall isAIMessage flag data).1.
Proof.
  unfold generate_plain. simpl.
  apply Forall2_fmap_r, Forall_Forall2_diag, Forall_forall. intros part _.
  unfold plain_generation. simpl.
  set (rm := default _ (rc_message part)).
  destruct (toMessage_fields rm data flag) as (Hcontent & Husage & _).
  assert (or_empty (rm_content rm) = or_empty (rc_message part ≫= rm_content))
    as Htext by (subst rm; by destruct (rc_message part)).
  destruct (isAIMessage _); simpl.
  - split; [by rewrite Hcontent, Htext|].
    unfold plain_token_usage, usage_counters. simpl.
    rewrite !nonzero_default. by destruct (c_usage data).
  - by rewrite Hcontent, Husage, Htext.
Qed.

End RoundTripFacts.

(** ** More on the tool message chunk merge and the parser *)

Section ConcatFoldFacts.

Variable base : BaseHelpers.

(** Over a fold of tool message chunks the [tool_call_id] is that of the
    first chunk: [concat] never reads the [tool_call_id] of its
    argument. *)
Theorem concat_fold_tool_call_id a cs :
  Tool.tool_call_id (foldl (Tool.concat base) a cs) = Tool.tool_call_id a.
Proof.
  revert a. induction cs as [|c cs IH]; intros a; [done|].
  cbn [foldl]. by rewrite IH.
Qed.

End ConcatFoldFacts.

(** Entries a partial map drops may be filtered out first. *)
Lemma omap_filter_None {A B} (f : A → option B) (P : A → Prop)
    `{∀ x, Decision (P x)} (l : list A) :
  (∀ x, ¬ P x → f x = None) → omap f (filter P l) = omap f l.
Proof.
  intros Hf. induction l as [|x l IH]; [done|].
  rewrite filter_cons.
  change (omap f (x :: l)) with
    (match f x with Some y => y :: omap f l | None => omap f l end).
  destruct (decide (P x)) as [Hx|Hx].
  - change (omap f (x :: ?k)) with
      (match f x with Some y => y :: omap f k | None => omap f k end).
    by rewrite IH.
  - by rewrite (Hf x Hx).
Qed.

Section ParserAppFacts.

Variable JSON_parse : string → option Value.

(** [defaultToolCallParser] works entry by entry: the result on two lists
    joined is the two results joined, list by list, and entries without a
    [function] may be removed beforehand. *)
Theorem defaultToolCallParser_app raws1 raws2 :
  defaultToolCallParser JSON_parse (raws1 ++ raws2) =
    ((defaultToolCallParser JSON_parse raws1).1 ++
       (defaultToolCallParser JSON_parse raws2).1,
     (defaultToolCallParser JSON_parse raws1).2 ++
       (defaultToolCallParser JSON_parse raws2).2) ∧
  defaultToolCallParser JSON_parse (filter (λ r, has_function r = true) raws1) =
    defaultToolCallParser JSON_parse raws1.
Proof.
  unfold defaultToolCallParser. rewrite !parser_fold. simpl.
  split; [by rewrite !omap_app|].
  f_equal; apply omap_filter_None; intros r Hr;
    unfold valid_of, invalid_of, has_function in *;
    by destruct (rtc_function r).
Qed.

End ParserAppFacts.

(** ** Construction *)

Section ConstructorFacts.

Variable getEnvironmentVariable : string → option string.

(** The constructor's result, by the checks it passed. *)
Lemma constructor_Returned fields this :
  constructor getEnvironmentVariable fields = Returned this →
  truthy_str (azureOpenAIApiKey this) || truthy_str (openAIApiKey this) ||
    azureADTokenProvider this = true ∧
  streaming this = default false (f_streaming fields) ∧
  streamUsage this = default (negb (azure_mode this)) (f_streamUsage fields) ∧
  modelKwargs this = default ∅ (f_modelKwargs fields) ∧
  if azure_mode this
  then
    truthy_str (azureOpenAIApiInstanceName this) ||
      truthy_str (azureOpenAIBasePath this) = true ∧
    truthy_str (azureOpenAIApiDeploymentName this) = true ∧
    truthy_str (azureOpenAIApiVersion this) = true ∧
    apiKey this = nullish (openAIApiKey this) (Some "")
  else
    apiKey this = openAIApiKey this ∧ truthy_str (apiKey this) = true.
Proof.
  unfold constructor, azure_mode.
  set (key := nullish (f_apiKey fields) _).
  set (azureKey := nullish (f_azureOpenAIApiKey fields) _).
  set (instance := nullish (f_azureOpenAIApiInstanceName fields) _).
  set (deployment := nullish (f_azureOpenAIApiDeploymentName fields) _).
  set (version := nullish (f_azureOpenAIApiVersion fields) _).
  set (basePath := nullish (f_azureOpenAIBasePath fields) _).
  destruct (truthy_str azureKey) eqn:Hazure,
           (truthy_str key) eqn:Hkey,
           (f_azureADTokenProvider fields) eqn:Hprovider; simpl; try done;
    try (destruct (truthy_str instance) eqn:Hi,
                  (truthy_str basePath) eqn:Hb; simpl; try done;
         destruct (truthy_str deployment) eqn:Hd; simpl; try done;
         destruct (truthy_str version) eqn:Hv; simpl; try done);
    intros [= <-]; simpl; rewrite ?Hazure, ?Hkey, ?Hprovider, ?Hi, ?Hb, ?Hd, ?Hv;
    simpl; done.
Qed.

(** What holds of every model the constructor returns: it has an Azure key,
    an OpenAI key or a token provider; for an Azure deployment it has an
    instance name or a base path, a deployment name and a version, its
    [apiKey] is never absent and [streamUsage] is off unless the fields
    set it; otherwise the OpenAI key is non-empty and [streamUsage] is on
    unless the fields clear it. *)
Theorem constructor_invariant fields this :
  constructor getEnvironmentVariable fields = Returned this →
  truthy_str (azureOpenAIApiKey this) || truthy_str (openAIApiKey this) ||
    azureADTokenProvider this = true ∧
  if azure_mode this
  then
    truthy_str (azureOpenAIApiInstanceName this) ||
      truthy_str (azureOpenAIBasePath this) = true ∧
    truthy_str (azureOpenAIApiDeploymentName this) = true ∧
    truthy_str (azureOpenAIApiVersion this) = true ∧
    is_Some (apiKey this) ∧
    streamUsage this = default false (f_streamUsage fields)
  else
    apiKey this = openAIApiKey this ∧
    truthy_str (apiKey this) = true ∧
    streamUsage this = default true (f_streamUsage fields).
Proof.
  intros Hthis.
  destruct (constructor_Returned fields this Hthis)
    as (Hkey & _ & Husage & _ & Hmode).
  split; [done|]. rewrite Husage.
  destruct (azure_mode this).
  - destruct Hmode as (Hi & Hd & Hv & ->). repeat split; try done.
    by destruct (openAIApiKey this).
  - by destruct Hmode.
Qed.

(** An empty [apiKey] in the fields is a key given: [openAIApiKey] and the
    environment's [OPENAI_API_KEY] are not consulted after it, and without
    Azure credentials the constructor fails. *)
Theorem constructor_empty_key fields :
  f_apiKey fields = Some "" →
  truthy_str (nullish (f_azureOpenAIApiKey fields)
                (getEnvironmentVariable "AZURE_OPENAI_API_KEY")) = false →
  f_azureADTokenProvider fields = false →
  constructor getEnvironmentVariable fields =
  Threw "OpenAI or Azure OpenAI API key or Token Provider not found".
Proof.
  intros Hkey Hazure Hprovider. unfold constructor.
  by rewrite Hkey, Hazure, Hprovider.
Qed.

(** For a model built without an explicit [streamUsage], the
    [stream_options] of what [invocationParams] returns are those of the
    [modelKwargs] given to the constructor when they have the key;
    otherwise the call's [stream_options] when given; otherwise usage is
    asked for exactly when the model is not an Azure deployment and the
    model or the call streams. *)
Theorem stream_options_by_deployment fields this stream_options extra_streaming :
  constructor getEnvironmentVariable fields = Returned this →
  f_streamUsage fields = None →
  invocationParams_stream_options this stream_options extra_streaming =
  match default ∅ (f_modelKwargs fields) !! "stream_options" with
  | Some v => v
  | None =>
      match stream_options with
      | Some v => Some v
      | None =>
          if negb (azure_mode this) &&
             (default false (f_streaming fields) || default false extra_streaming)
          then Some (VMap {[ "include_usage" := VBool true ]})
          else None
      end
  end.
Proof.
  intros Hthis Hfield.
  destruct (constructor_Returned fields this Hthis) as (_ & Hs & Husage & Hkw & _).
  unfold invocationParams_stream_options, streamOptionsConfig.
  by rewrite Hkw, Husage, Hs, Hfield.
Qed.

End ConstructorFacts.

(** Witness: three outputs, one of them absent. *)
Lemma combineLLMOutput_balanced_witness :
  let l :=
    [ Some {| tokenUsage := Some {| completionTokens := Some 2;
                                    promptTokens := Some 5;
                                    totalTokens := Some 7 |};
              estimatedTokenUsage := None |};
      None;
      Some {| tokenUsage := Some {| completionTokens := None;
                                    promptTokens := Some 3;
                                    totalTokens := Some 3 |};
              estimatedTokenUsage := None |} ] in
  sum_total (_combineLLMOutput l) =
  sum_prompt (_combineLLMOutput l) + sum_completion (_combineLLMOutput l).
Proof.
  apply combineLLMOutput_balanced.
  repeat constructor; intros u [= <-]; reflexivity.
Defined.

(** Witness: the sample reply and a text delta. *)
Lemma raw_response_flag_witness :
  let plain flag :=
    m_additional_kwargs
      (msg_fields (openAIResponseToChatMessage sample_parseToolCall
                     sample_makeInvalidToolCall sample_reply sample_completion
                     flag)) in
  plain (Some false) !! "__raw_response" = Some (c_raw sample_completion) ∧
  plain None !! "__raw_response" = None ∧
  m_additional_kwargs
    (_convertDeltaToMessageChunk
       {| d_role := Some "assistant"; d_content := Some (ContentText "Hel");
          d_function_call := None; d_tool_calls := None;
          d_name := None; d_tool_call_id := None |}
       (data_text "Hel") None false)
    !! "__raw_response" = None.
Proof.
  apply (raw_response_flag sample_parseToolCall sample_makeInvalidToolCall
           sample_reply sample_completion false).
  reflexivity.
Defined.

(** Witness: two text deltas and a usage report. *)
Lemma usage_joins_completion_0_witness :
  ∃ body generations merged,
    (_streamResponseChunks quiet_settings
       [data_text "Hel"; data_more "lo"; data_usage 7 2]).1 =
      body ++ [usage_chunk {| prompt_tokens := 7; completion_tokens := 2;
                              total_tokens := 7 + 2 |}] ∧
    generate_stream sample_concat
      (_streamResponseChunks quiet_settings
         [data_text "Hel"; data_more "lo"; data_usage 7 2]) =
      Returned generations ∧
    fold_group sample_concat
      (group 0 (absorb_info <$> body) ++
       [usage_chunk {| prompt_tokens := 7; completion_tokens := 2;
                       total_tokens := 7 + 2 |}]) = Some merged ∧
    merged ∈ generations.
Proof.
  apply (usage_joins_completion_0 sample_concat quiet_settings
           [data_text "Hel"; data_more "lo"; data_usage 7 2]); reflexivity.
Defined.

(** Witness: the sample reply, whose second tool call is rejected. *)
Lemma response_to_request_witness :
  convertMessage is_generic is_ai sample_convertToolCall
    (openAIResponseToChatMessage sample_parseToolCall sample_makeInvalidToolCall
       sample_reply sample_completion None) =
  Returned
    {| cp_role := Some "assistant";
       cp_content := None;
       cp_name := None;
       cp_function_call := None;
       cp_tool_calls :=
         Some (VSeq [ sample_convertToolCall
                        {| tc_name := "lookup"; tc_args := VMap ∅;
                           tc_id := Some "call_1" |} ]);
       cp_tool_call_id := None |}.
Proof.
  apply (response_to_request sample_parseToolCall sample_makeInvalidToolCall
           is_generic is_ai sample_convertToolCall sample_reply sample_completion
           None).
  - reflexivity.
  - intros m Hm. unfold is_ai, _getType. by rewrite Hm.
Defined.

(** Witness: a model built from a key alone. *)
Lemma constructor_invariant_witness :
  let this :=
    {| openAIApiKey := Some "sk-1"; apiKey := Some "sk-1";
       azureOpenAIApiKey := None; azureADTokenProvider := false;
       azureOpenAIApiInstanceName := None;
       azureOpenAIApiDeploymentName := None;
       azureOpenAIApiVersion := None; azureOpenAIBasePath := None;
       streaming := false; streamUsage := true; modelKwargs := ∅ |} in
  truthy_str (azureOpenAIApiKey this) || truthy_str (openAIApiKey this) ||
    azureADTokenProvider this = true ∧
  apiKey this = openAIApiKey this ∧
  truthy_str (apiKey this) = true ∧
  streamUsage this = true.
Proof.
  apply (constructor_invariant no_environment (fields_with_key "sk-1")).
  reflexivity.
Defined.

(** Witness: an empty key beside a key in the environment. *)
Lemma constructor_empty_key_witness :
  constructor key_environment (fields_with_key "") =
  Threw "OpenAI or Azure OpenAI API key or Token Provider not found".
Proof.
  apply constructor_empty_key; reflexivity.
Defined.

(** Witness: a model built from a key alone, on a streaming call. *)
Lemma stream_options_by_deployment_witness :
  invocationParams_stream_options
    {| openAIApiKey := Some "sk-1"; apiKey := Some "sk-1";
       azureOpenAIApiKey := None; azureADTokenProvider := false;
       azureOpenAIApiInstanceName := None;
       azureOpenAIApiDeploymentName := None;
       azureOpenAIApiVersion := None; azureOpenAIBasePath := None;
       streaming := false; streamUsage := true; modelKwargs := ∅ |}
    None (Some true) =
  Some (VMap {[ "include_usage" := VBool true ]}).
Proof.
  apply (stream_options_by_deployment no_environment (fields_with_key "sk-1"));
    reflexivity.
Defined.

(** ** No ambiguous-grouping check *)

(** The completion index of a chunk the loop yields: [choice.index ?? 0]. *)
Lemma stream_step_completion_index cfg st data choice c :
  head (cc_choices data) = Some choice →
  st_yielded (stream_step cfg st data) = st_yielded st ++ [c] →
  completion_index c = default 0 (ch_index choice).
Proof.
  intros Hchoice Hc.
  destruct (stream_step_new cfg st data)
    as [Hsame|(choice' & delta & content & Hchoice' & _ & _ & Hnew)].
  - rewrite Hsame in Hc. apply (f_equal length) in Hc.
    rewrite length_app in Hc. simpl in Hc. lia.
  - rewrite Hnew in Hc. apply app_inv_head in Hc. injection Hc as <-.
    assert (choice' = choice) as -> by congruence.
    unfold completion_index. simpl.
    by rewrite (proj2 (generation_info_indices cfg data choice)).
Qed.

Section AmbiguousGroupingFacts.

Variable concat : ChatGenerationChunk → ChatGenerationChunk → ChatGenerationChunk.

(** A slot of the result is the fold of its group. *)
Lemma aggregate_slot chunks i first rest :
  group i (absorb_info <$> chunks) = first :: rest →
  foldl concat first rest ∈ aggregate_by_index concat chunks.
Proof.
  intros Hgroup. unfold aggregate_by_index.
  apply list_elem_of_omap. exists i. split; [|by rewrite Hgroup].
  apply ascending_indices_spec.
  assert (group i (absorb_info <$> chunks) ≠ []) as Hne by (by rewrite Hgroup).
  apply group_nonempty in Hne. by rewrite <- list_fmap_compose in Hne.
Qed.

(** C9 (amended): the streaming branch of [_generate] has no
    ambiguous-grouping check.  A chunk the stream yields for a choice
    without an index and a chunk it yields for a choice that carries index
    0 both have completion index 0; for every stream that ends normally
    under a signal that is not aborted the call returns, and the
    generation of slot 0 is the pairwise merge, in arrival order, of all
    the chunks of completion index 0, content and tool call fragments
    alike: none is kept out of the slot. *)
Theorem generate_stream_default_then_explicit cfg datas :
  signal_aborted cfg = false →
  (∀ st data choice c,
     head (cc_choices data) = Some choice →
     ch_index choice = None ∨ ch_index choice = Some 0 →
     st_yielded (stream_step cfg st data) = st_yielded st ++ [c] →
     completion_index c = 0) ∧
  ∃ generations,
    generate_stream concat (_streamResponseChunks cfg datas) =
      Returned generations ∧
    ∀ first rest,
      absorb_info <$>
        filter (λ c, completion_index c = 0) (_streamResponseChunks cfg datas).1 =
        first :: rest →
      foldl concat first rest ∈ generations.
Proof.
  intros Habort. split.
  - intros st data choice c Hchoice Hindex Hc.
    rewrite (stream_step_completion_index cfg st data choice c Hchoice Hc).
    by destruct Hindex as [-> | ->].
  - destruct (_streamResponseChunks cfg datas) as [chunks failure] eqn:Hstream.
    assert (failure = None) as ->.
    { unfold _streamResponseChunks in Hstream. rewrite Habort in Hstream.
      by injection Hstream as _ <-. }
    exists (aggregate_by_index concat chunks).
    split; [apply generate_stream_returns|].
    intros first rest Hgroup. apply (aggregate_slot chunks 0).
    by rewrite group_absorb.
Qed.

End AmbiguousGroupingFacts.

(** C9, counterexample: a content delta whose choice carries no index,
    then a tool call delta whose choice carries index 0.  The call returns
    one generation, the merge of the two chunks, with the text of the
    first and the tool call piece of the second; it reports no error. *)
Lemma ambiguous_grouping_merged :
  let stream :=
    _streamResponseChunks quiet_settings
      [data_default_content "Hello"; data_tool_call] in
  length stream.1 = 2%nat ∧
  ∃ generation,
    generate_stream sample_concat stream = Returned [generation] ∧
    text generation = "Hello" ∧
    m_tool_call_chunks (message generation) =
      [ {| tcc_name := Some "lookup"; tcc_args := Some "{";
           tcc_id := Some "call_1"; tcc_index := Some 0 |} ] ∧
    generate_stream sample_concat stream ≠ Threw "AmbiguousGrouping".
Proof.
  split; [by vm_compute|]. eexists.
  split; [vm_compute; reflexivity|]. split; [by vm_compute|].
  split; [by vm_compute|].
  intros Heq. vm_compute in Heq. discriminate.
Qed.

(** C9, witness: the same stream. *)
Lemma generate_stream_default_then_explicit_witness :
  (∀ st data choice c,
     head (cc_choices data) = Some choice →
     ch_index choice = None ∨ ch_index choice = Some 0 →
     st_yielded (stream_step quiet_settings st data) = st_yielded st ++ [c] →
     completion_index c = 0) ∧
  ∃ generations,
    generate_stream sample_concat
      (_streamResponseChunks quiet_settings
         [data_default_content "Hello"; data_tool_call]) =
      Returned generations ∧
    ∀ first rest,
      absorb_info <$>
        filter (λ c, completion_index c = 0)
          (_streamResponseChunks quiet_settings
             [data_default_content "Hello"; data_tool_call]).1 =
        first :: rest →
      foldl sample_concat first rest ∈ generations.
Proof.
  apply (generate_stream_default_then_explicit sample_concat quiet_settings
           [data_default_content "Hello"; data_tool_call]).
  reflexivity.
Defined.
